(** * WyseForex bot: indicator engine and digest-job registry

    A shallow embedding of [bot.py].  The file follows the layout of the
    program: the numeric values and the pandas series operations the program
    calls, then [rsi] and [analyze_pair], then the news fetcher, the batch
    commands ([trends_cmd], [digest_job]) and the two job-registry commands
    ([schedule_digest_cmd], [cancel_digest_cmd]); the theorems come last.

    Numbers.  A Python float is modelled by [float]: a rational, one of the
    two infinities, or NaN.  Arithmetic on [float] is exact (no rounding, no
    overflow, one zero); division by zero follows IEEE 754 (x/0 is an
    infinity for x <> 0 and NaN for x = 0), which is what numpy does on a
    Series.  The statements do not lean on the exactness unless they say
    so: they tell where a value is absent, compare the values the program
    compares, or bound a value with a margin far above rounding error, and
    a statement that a value is defined is made of closes of magnitude at
    most 1e300, which the program's sums cannot overflow with.  Where
    rounding decides, for the rolling mean, the computation is given a
    second time on binary64 values ([rolling_mean64]). *)

From Stdlib Require Import PrimFloat.
From Stdlib Require FloatOps SpecFloat.
From Stdlib Require Import String Ascii Bool Arith ZArith QArith Qabs.
From Stdlib Require Import Lia Lqa List.
From Stdlib Require Import DecimalString DecimalZ.
From Stdlib Require Import Permutation Sorted.
Import ListNotations.

Local Open Scope string_scope.
Local Open Scope list_scope.
Local Open Scope Q_scope.

(** ** Python results and exceptions *)

Inductive exn_class :=
| RuntimeError
| IndexError
| HTTPError.

(** An exception: its class and [str(e)]. *)
Record exn := Exn { exn_cls : exn_class; exn_msg : string }.

Inductive result (A : Type) :=
| Ok (a : A)
| Raise (e : exn).

Arguments Ok {A} a.
Arguments Raise {A} e.

Definition bind {A B} (r : result A) (k : A -> result B) : result B :=
  match r with
  | Ok a => k a
  | Raise e => Raise e
  end.

Notation "x <- r ;; k" := (bind r (fun x => k))
  (at level 61, r at next level, right associativity).

(** ** Floats *)

Inductive float :=
| NaN
| PInf
| NInf
| Fin (q : Q).

Definition isnan (x : float) : bool :=
  match x with NaN => true | _ => false end.

Definition Qsgn_pos (q : Q) : bool := if Qlt_le_dec 0 q then true else false.
Definition Qis_zero (q : Q) : bool := Qeq_bool q 0.

Definition fneg (x : float) : float :=
  match x with
  | NaN => NaN
  | PInf => NInf
  | NInf => PInf
  | Fin q => Fin (- q)
  end.

Definition fadd (x y : float) : float :=
  match x, y with
  | NaN, _ | _, NaN => NaN
  | PInf, NInf | NInf, PInf => NaN
  | PInf, _ | _, PInf => PInf
  | NInf, _ | _, NInf => NInf
  | Fin a, Fin b => Fin (a + b)
  end.

Definition fsub (x y : float) : float := fadd x (fneg y).

(** The infinity with the sign of [pos] when [same], the other one otherwise. *)
Definition inf_signed (pos same : bool) : float :=
  if Bool.eqb pos same then PInf else NInf.

Definition fmul (x y : float) : float :=
  match x, y with
  | NaN, _ | _, NaN => NaN
  | Fin a, Fin b => Fin (a * b)
  | Fin a, PInf | PInf, Fin a =>
      if Qis_zero a then NaN else inf_signed (Qsgn_pos a) true
  | Fin a, NInf | NInf, Fin a =>
      if Qis_zero a then NaN else inf_signed (Qsgn_pos a) false
  | PInf, PInf | NInf, NInf => PInf
  | PInf, NInf | NInf, PInf => NInf
  end.

Definition fdiv (x y : float) : float :=
  match x, y with
  | NaN, _ | _, NaN => NaN
  | Fin a, Fin b =>
      if Qis_zero b
      then (if Qis_zero a then NaN else inf_signed (Qsgn_pos a) true)
      else Fin (a / b)
  | Fin _, PInf | Fin _, NInf => Fin 0
  | PInf, Fin b => inf_signed (Qsgn_pos b || Qis_zero b) true
  | NInf, Fin b => inf_signed (Qsgn_pos b || Qis_zero b) false
  | _, _ => NaN
  end.

(** Comparisons: every comparison with NaN is false. *)
Definition flt (x y : float) : bool :=
  match x, y with
  | NaN, _ | _, NaN => false
  | _, NInf | PInf, _ => false
  | NInf, _ | _, PInf => true
  | Fin a, Fin b => if Qlt_le_dec a b then true else false
  end.

Definition feqb (x y : float) : bool :=
  match x, y with
  | PInf, PInf | NInf, NInf => true
  | Fin a, Fin b => Qeq_bool a b
  | _, _ => false
  end.

Definition fle (x y : float) : bool := flt x y || feqb x y.
Definition fgt (x y : float) : bool := flt y x.
Definition fge (x y : float) : bool := fle y x.

(** ** pandas Series operations used by the bot *)

Definition Series := list float.

(** [s.diff()]: the first entry is NaN, entry [i] is [s[i] - s[i-1]]. *)
Fixpoint diff_from (prev : float) (s : Series) : Series :=
  match s with
  | [] => []
  | x :: rest => fsub x prev :: diff_from x rest
  end.

Definition diff (s : Series) : Series := diff_from NaN s.

(** [s.clip(lower=lo)] and [s.clip(upper=hi)]; NaN stays NaN. *)
Definition clip_lower (lo : float) (s : Series) : Series :=
  map (fun x => if flt x lo then lo else x) s.

Definition clip_upper (hi : float) (s : Series) : Series :=
  map (fun x => if flt hi x then hi else x) s.

Definition neg (s : Series) : Series := map fneg s.

(** [s.replace(a, b)]. *)
Definition replace (a b : float) (s : Series) : Series :=
  map (fun x => if feqb x a then b else x) s.

(** Element-wise arithmetic of two aligned Series, and with a scalar. *)
Fixpoint zip_with (f : float -> float -> float) (s t : Series) : Series :=
  match s, t with
  | x :: s', y :: t' => f x y :: zip_with f s' t'
  | _, _ => []
  end.

(** *** [s.rolling(w).mean()]

    pandas keeps a running sum and a running count of the non-NaN values of
    the trailing window: each step removes the value that leaves the window
    and adds the new one; the mean is defined once the count reaches
    [min_periods], which defaults to the window size. *)

Record roll_state := RollState {
  roll_window : list float;   (* the values in the window, oldest first *)
  roll_nobs : nat;
  roll_sum : float
}.

Definition add_mean (v : float) (st : roll_state) : roll_state :=
  if isnan v
  then RollState (roll_window st ++ [v]) (roll_nobs st) (roll_sum st)
  else RollState (roll_window st ++ [v]) (S (roll_nobs st)) (fadd (roll_sum st) v).

Definition remove_mean (w : nat) (st : roll_state) : roll_state :=
  if (length (roll_window st) <? w)%nat then st
  else match roll_window st with
       | [] => st
       | old :: win' =>
           if isnan old
           then RollState win' (roll_nobs st) (roll_sum st)
           else RollState win' (pred (roll_nobs st)) (fsub (roll_sum st) old)
       end.

Definition calc_mean (minp : nat) (st : roll_state) : float :=
  if (minp <=? roll_nobs st)%nat && (0 <? roll_nobs st)%nat
  then fdiv (roll_sum st) (Fin (inject_Z (Z.of_nat (roll_nobs st))))
  else NaN.

Fixpoint rolling_mean_from (w : nat) (st : roll_state) (s : Series) : Series :=
  match s with
  | [] => []
  | v :: rest =>
      let st' := add_mean v (remove_mean w st) in
      calc_mean w st' :: rolling_mean_from w st' rest
  end.

Definition rolling_mean (w : nat) (s : Series) : Series :=
  rolling_mean_from w (RollState [] 0 (Fin 0)) s.

(** *** [s.rolling(w).mean()] in double precision

    The same computation on binary64 values, as pandas carries it out: the
    running sum is kept with Kahan compensation, one compensation term for
    the values added and one for the values removed; the number of negative
    values and the length of the current run of equal values are kept to
    clean the result. *)









(** *** [s.ewm(alpha=a, min_periods=minp).mean()]

    With the defaults [adjust=True] and [ignore_na=False]: a weighted mean
    whose weights decay by [1 - a] per position; NaN entries contribute no
    value, and the output is NaN until [minp] values have been seen. *)

Record ewm_state := EwmState {
  ewm_weighted : float;
  ewm_old_wt : Q;
  ewm_nobs : nat
}.

Definition ewm_step (alpha : Q) (cur : float) (st : ewm_state) : ewm_state :=
  let is_observation := negb (isnan cur) in
  let nobs := if is_observation then S (ewm_nobs st) else ewm_nobs st in
  if negb (isnan (ewm_weighted st)) then
    let old_wt := ewm_old_wt st * (1 - alpha) in
    if is_observation then
      let weighted :=
        if feqb (ewm_weighted st) cur then ewm_weighted st
        else fdiv (fadd (fmul (Fin old_wt) (ewm_weighted st)) (fmul (Fin 1) cur))
                  (Fin (old_wt + 1)) in
      EwmState weighted (old_wt + 1) nobs
    else EwmState (ewm_weighted st) old_wt nobs
  else if is_observation then EwmState cur (ewm_old_wt st) nobs
  else EwmState (ewm_weighted st) (ewm_old_wt st) nobs.

Fixpoint ewm_mean_from (alpha : Q) (minp : nat) (st : ewm_state) (s : Series)
  : Series :=
  match s with
  | [] => []
  | cur :: rest =>
      let st' := ewm_step alpha cur st in
      (if (minp <=? ewm_nobs st')%nat then ewm_weighted st' else NaN)
        :: ewm_mean_from alpha minp st' rest
  end.

Definition ewm_mean (alpha : Q) (minp : nat) (s : Series) : Series :=
  ewm_mean_from alpha minp (EwmState NaN 1 0) s.

(** [s.pct_change(k)]: [s[i] / s[i-k] - 1], NaN for the first [k] entries.
    (The Series it is applied to has no NaN, so filling does not matter.) *)
Definition shift (k : nat) (s : Series) : Series :=
  firstn (length s) (repeat NaN k ++ s).

Definition pct_change (k : nat) (s : Series) : Series :=
  zip_with (fun x y => fsub (fdiv x y) (Fin 1)) s (shift k s).

(** ** bot.py *)

Definition MAJOR_PAIRS : list (string * string) :=
  [("EUR","USD"); ("GBP","USD"); ("USD","JPY"); ("USD","CHF");
   ("AUD","USD"); ("USD","CAD"); ("NZD","USD")].

(** The floor [1e-9]. *)
Definition floor_1e_9 : Q := 1 # 1000000000.

(** [rsi] (lines 36-43).  Its two averages and the formula of one entry are
    named, so that statements can speak of them; [rsi_avg_loss_raw] is the
    average loss before [replace(0, 1e-9)]. *)

Definition rsi_avg_gain (series : Series) (period : nat) : Series :=
  let delta := diff series in
  let gain := clip_lower (Fin 0) delta in
  ewm_mean (1 / inject_Z (Z.of_nat period)) period gain.

Definition rsi_avg_loss_raw (series : Series) (period : nat) : Series :=
  let delta := diff series in
  let loss := neg (clip_upper (Fin 0) delta) in
  ewm_mean (1 / inject_Z (Z.of_nat period)) period loss.

Definition rsi_avg_loss (series : Series) (period : nat) : Series :=
  replace (Fin 0) (Fin floor_1e_9) (rsi_avg_loss_raw series period).

Definition rsi_of (avg_gain avg_loss : float) : float :=
  let rs := fdiv avg_gain avg_loss in
  fsub (Fin 100) (fdiv (Fin 100) (fadd (Fin 1) rs)).

Definition rsi (series : Series) (period : nat) : Series :=
  let avg_gain := rsi_avg_gain series period in
  let avg_loss := rsi_avg_loss series period in
  zip_with rsi_of avg_gain avg_loss.

(** *** The frame of [fetch_fx_daily]

    One row per trading day, ascending by date.  The four price columns come
    from [astype(float)] on the provider's decimal strings and are taken
    finite. *)

Record PriceBar := {
  bar_date : string;          (* the index, as [%Y-%m-%d] *)
  bar_open : Q;
  bar_high : Q;
  bar_low : Q;
  bar_close : Q
}.

Definition DataFrame := list PriceBar.

(** A row of the frame after [analyze_pair] has added its four columns. *)
Record Row := {
  row_bar : PriceBar;
  SMA50 : float;
  SMA200 : float;
  RSI14 : float;
  MOM5 : float
}.

Definition row_close (r : Row) : float := Fin (bar_close (row_bar r)).

Fixpoint make_rows (bars : DataFrame) (sma50 sma200 rsi14 mom5 : Series)
  : list Row :=
  match bars, sma50, sma200, rsi14, mom5 with
  | b :: bars', a :: sma50', c :: sma200', r :: rsi14', m :: mom5' =>
      Build_Row b a c r m :: make_rows bars' sma50' sma200' rsi14' mom5'
  | _, _, _, _, _ => []
  end.

Definition close_column (df : DataFrame) : Series :=
  map (fun b => Fin (bar_close b)) df.

Definition with_indicators (df : DataFrame) : list Row :=
  let close := close_column df in
  make_rows df
    (rolling_mean 50 close)
    (rolling_mean 200 close)
    (rsi close 14)
    (map (fun x => fmul x (Fin 100)) (pct_change 5 close)).

(** [df.dropna()]: keep the rows without a NaN in any column. *)
Definition row_has_nan (r : Row) : bool :=
  isnan (SMA50 r) || isnan (SMA200 r) || isnan (RSI14 r) || isnan (MOM5 r).

Definition dropna (rows : list Row) : list Row :=
  filter (fun r => negb (row_has_nan r)) rows.

(** [df.iloc[i]] for a scalar position: negative positions count from the
    end, and a position outside the frame raises [IndexError]. *)
Definition iloc {A} (rows : list A) (i : Z) : result A :=
  let n := Z.of_nat (List.length rows) in
  let j := (if i <? 0 then n + i else i)%Z in
  if ((j <? 0) || (n <=? j))%Z
  then Raise (Exn IndexError "single positional indexer is out-of-bounds")
  else match nth_error rows (Z.to_nat j) with
       | Some r => Ok r
       | None => Raise (Exn IndexError "single positional indexer is out-of-bounds")
       end.

Definition golden_cross : string := "Golden cross (bullish)".
Definition death_cross : string := "Death cross (bearish)".

(** The two tests of lines 73-74, in their order. *)
Definition cross_signals (latest prev : Row) : list string :=
  (if fgt (SMA50 latest) (SMA200 latest) && fle (SMA50 prev) (SMA200 prev)
   then [golden_cross] else [])
  ++
  (if flt (SMA50 latest) (SMA200 latest) && fge (SMA50 prev) (SMA200 prev)
   then [death_cross] else []).

Definition join (sep : string) (l : list string) : string :=
  String.concat sep l.

(** The dict returned by [analyze_pair].  [momentum] keeps the value that
    the program renders as a signed two-decimal percentage. *)
Record Snapshot := {
  pair : string;
  price : float;
  snap_rsi : float;
  rsi_state : string;
  sma50 : float;
  sma200 : float;
  momentum : float;
  tilt : string;
  signals : string;
  asof : string
}.

(** The quote provider, as [analyze_pair] sees it through [fetch_fx_daily]:
    a frame, or the exception the fetch raised. *)
Definition QuoteProvider := string -> string -> result DataFrame.

Definition analyze_pair (fetch_fx_daily : QuoteProvider) (base quote : string)
  : result Snapshot :=
  df <- fetch_fx_daily base quote ;;
  let df := dropna (with_indicators df) in
  latest <- iloc df (-1) ;;
  prev <- iloc df (-2) ;;
  let signals := cross_signals latest prev in
  let rsi_state :=
    if fge (RSI14 latest) (Fin 70) then "Overbought"
    else if fle (RSI14 latest) (Fin 30) then "Oversold"
    else "Neutral" in
  let tilt :=
    if fgt (SMA50 latest) (SMA200 latest) then "⬆️ Bullish tilt"
    else if flt (SMA50 latest) (SMA200 latest) then "⬇️ Bearish tilt"
    else "➡️ Sideways" in
  Ok {| pair := (base ++ "/" ++ quote)%string;
        price := row_close latest;
        snap_rsi := RSI14 latest;
        rsi_state := rsi_state;
        sma50 := SMA50 latest;
        sma200 := SMA200 latest;
        momentum := MOM5 latest;
        tilt := tilt;
        signals := match signals with [] => "—" | _ => join "; " signals end;
        asof := bar_date (row_bar latest) |}.

(** *** News *)

Record Article := { article_title : option string }.

(** What the process reads from its surroundings: two environment variables
    and the two HTTP collaborators. *)
Record Env := {
  NEWSAPI_KEY : option string;
  TZ_NAME : string;
  fetch_fx_daily : QuoteProvider;
  newsapi_articles : result (list Article)
}.

Definition nl : string := String (ascii_of_nat 10) "".

(** [not NEWSAPI_KEY]: the variable is unset or empty. *)
Definition key_missing (k : option string) : bool :=
  match k with
  | None => true
  | Some k => (String.length k =? 0)%nat
  end.

Definition get_forex_news (env : Env) (limit : nat) : result (list string) :=
  if key_missing (NEWSAPI_KEY env) then Ok []
  else
    articles <- newsapi_articles env ;;
    Ok (map (fun a => ("• " ++ match article_title a with
                              | Some t => t
                              | None => "(no title)"
                              end)%string)
            (firstn limit articles)).

(** *** Messages

    What a handler sends.  [format_trend_summary] is a pure rendering of its
    items; a trend message is kept as the list it renders. *)
Inductive Message :=
| Plain (text : string)
| Markdown (text : string)
| MarkdownTrends (items : list Snapshot).

Definition pair_label (base quote : string) : string :=
  (base ++ "/" ++ quote)%string.

(** The loop of [trends_cmd]; the pause after each successful analysis has
    no effect on what is collected. *)
Fixpoint trends_loop (env : Env) (pairs : list (string * string))
  (out : list Snapshot) (errs : list string) : list Snapshot * list string :=
  match pairs with
  | [] => (out, errs)
  | (base, quote) :: rest =>
      match analyze_pair (fetch_fx_daily env) base quote with
      | Ok a => trends_loop env rest (out ++ [a]) errs
      | Raise e =>
          trends_loop env rest out
            (errs ++ [(pair_label base quote ++ ": " ++ exn_msg e)%string])
      end
  end.

Definition trends_reply (out : list Snapshot) (errs : list string)
  : list Message :=
  (match out with [] => [] | _ => [MarkdownTrends out] end)
  ++
  (match errs with
   | [] => []
   | _ => [Plain ("Some pairs failed:" ++ nl ++ join nl (firstn 5 errs))%string]
   end).

Definition trends_cmd (env : Env) : list Message :=
  let '(out, errs) := trends_loop env MAJOR_PAIRS [] [] in
  trends_reply out errs.

(** *** The digest *)

(** What [digest_job] does: the messages sent to the chat, and the lines
    written to the log. *)
Record DigestRun := {
  sent : list (Z * Message);
  logged : list string
}.

Fixpoint digest_loop (env : Env) (pairs : list (string * string))
  (out : list Snapshot) (log : list string) : list Snapshot * list string :=
  match pairs with
  | [] => (out, log)
  | (base, quote) :: rest =>
      match analyze_pair (fetch_fx_daily env) base quote with
      | Ok a => digest_loop env rest (out ++ [a]) log
      | Raise e =>
          digest_loop env rest out
            (log ++ [("digest pair fail " ++ pair_label base quote
                      ++ ": " ++ exn_msg e)%string])
      end
  end.

Definition digest_job (env : Env) (chat_id : Z) : DigestRun :=
  match get_forex_news env 5 with
  | Raise e =>
      {| sent := [(chat_id, Plain "⚠️ Daily digest failed.")];
         logged := [("digest fail: " ++ exn_msg e)%string] |}
  | Ok heads =>
      let news_text :=
        ("📰 *Daily Forex Headlines:*" ++ nl ++ nl
         ++ match heads with [] => "No headlines." | _ => join nl heads end)%string in
      let '(out, log) := digest_loop env (firstn 4 MAJOR_PAIRS) [] [] in
      let trends_text :=
        match out with
        | [] => Markdown "No trend data."
        | _ => MarkdownTrends out
        end in
      {| sent := [(chat_id, Markdown news_text); (chat_id, trends_text)];
         logged := log |}
  end.

(** *** Python string helpers *)

(** [s.split(sep)] for a one-character separator. *)
Fixpoint split (sep : ascii) (s : string) : list string :=
  match s with
  | EmptyString => [""]
  | String c r =>
      if Ascii.eqb c sep then "" :: split sep r
      else match split sep r with
           | [] => [String c ""]
           | p :: ps => String c p :: ps
           end
  end.

(** [sep in s]. *)
Fixpoint contains (sep : ascii) (s : string) : bool :=
  match s with
  | EmptyString => false
  | String c r => Ascii.eqb c sep || contains sep r
  end.

Definition is_digit (c : ascii) : bool :=
  ((48 <=? nat_of_ascii c) && (nat_of_ascii c <=? 57))%nat.

(** The blanks [int] strips from an ASCII string: tab, line feed, vertical
    tab, form feed, carriage return and space. *)
Definition is_space (c : ascii) : bool :=
  let n := nat_of_ascii c in
  ((9 <=? n) && (n <=? 13) || (n =? 32))%nat.

Fixpoint lstrip (s : string) : string :=
  match s with
  | EmptyString => ""
  | String c r => if is_space c then lstrip r else s
  end.

Fixpoint rstrip (s : string) : string :=
  match s with
  | EmptyString => ""
  | String c r =>
      match rstrip r with
      | EmptyString => if is_space c then "" else String c ""
      | r' => String c r'
      end
  end.

(** Decimal digits, with single underscores allowed between digits. *)
Fixpoint parse_digits (acc : Z) (after_digit : bool) (s : string) : option Z :=
  match s with
  | EmptyString => if after_digit then Some acc else None
  | String c r =>
      if is_digit c
      then parse_digits (10 * acc + Z.of_nat (nat_of_ascii c - 48)) true r
      else if Ascii.eqb c "_" && after_digit then parse_digits acc false r
      else None
  end.

(** [int(s)] on an ASCII string: blanks stripped at both ends, an optional
    sign, then decimal digits; [None] stands for [ValueError].  (On a string
    with characters beyond ASCII, [int] also reads the decimal digits of
    other scripts; the statements about rejected input are restricted to
    ASCII strings for that reason.) *)
Definition py_int (s : string) : option Z :=
  match rstrip (lstrip s) with
  | EmptyString => None
  | String c r =>
      if Ascii.eqb c "+" then parse_digits 0 false r
      else if Ascii.eqb c "-" then option_map Z.opp (parse_digits 0 false r)
      else parse_digits 0 false (String c r)
  end.

(** [str(n)] for an integer. *)
Definition py_str (n : Z) : string := NilZero.string_of_int (Z.to_int n).

(** [f"{n:02d}"]. *)
Definition pad2 (n : Z) : string :=
  let s := py_str n in
  if (String.length s <? 2)%nat then ("0" ++ s)%string else s.

(** *** The job queue

    The jobs scheduled in [context.job_queue].  Every job of this program
    runs [digest_job] daily at its time of day in the zone [TZ_NAME]. *)

Record Job := {
  job_id : nat;
  job_name : string;
  job_hour : Z;
  job_minute : Z;
  job_chat_id : Z
}.

Record JobQueue := {
  jobs : list Job;
  next_id : nat
}.

Definition get_jobs_by_name (name : string) (q : JobQueue) : list Job :=
  filter (fun j => String.eqb (job_name j) name) (jobs q).

(** [job.schedule_removal()]: the job leaves the queue. *)
Definition schedule_removal (j : Job) (q : JobQueue) : JobQueue :=
  {| jobs := filter (fun k => negb (job_id k =? job_id j)%nat) (jobs q);
     next_id := next_id q |}.

Definition run_daily (hh mm : Z) (name : string) (chat_id : Z) (q : JobQueue)
  : JobQueue :=
  {| jobs := jobs q ++ [ {| job_id := next_id q; job_name := name;
                            job_hour := hh; job_minute := mm;
                            job_chat_id := chat_id |} ];
     next_id := S (next_id q) |}.

Definition remove_all (js : list Job) (q : JobQueue) : JobQueue :=
  fold_left (fun q j => schedule_removal j q) js q.

Definition digest_name (chat_id : Z) : string :=
  ("digest_" ++ py_str chat_id)%string.

Definition usage_reply : string :=
  "Usage: /schedule_digest HH:MM (24h, your local time)".
Definition invalid_reply : string :=
  "Invalid time. Example: /schedule_digest 08:30".

(** The [try] block of [schedule_digest_cmd] (assertions enabled): the two
    integers, or [None] when unpacking, [int] or the assertion raised. *)
Definition parse_time (arg : string) : option (Z * Z) :=
  match map py_int (split ":" arg) with
  | [Some hh; Some mm] =>
      if ((0 <=? hh) && (hh <? 24) && (0 <=? mm) && (mm <? 60))%Z
      then Some (hh, mm) else None
  | _ => None
  end.

Definition schedule_digest_cmd (env : Env) (args : list string) (chat_id : Z)
  (q : JobQueue) : JobQueue * list Message :=
  match args with
  | [arg] =>
      if negb (contains ":" arg) then (q, [Plain usage_reply])
      else match parse_time arg with
           | None => (q, [Plain invalid_reply])
           | Some (hh, mm) =>
               let name := digest_name chat_id in
               let q := remove_all (get_jobs_by_name name q) q in
               let q := run_daily hh mm name chat_id q in
               (q, [Plain ("✅ Daily digest set for " ++ pad2 hh ++ ":"
                           ++ pad2 mm ++ " (" ++ TZ_NAME env ++ ").")%string])
           end
  | _ => (q, [Plain usage_reply])
  end.

Definition cancel_digest_cmd (chat_id : Z) (q : JobQueue)
  : JobQueue * list Message :=
  let name := digest_name chat_id in
  let js := get_jobs_by_name name q in
  match js with
  | [] => (q, [Plain "No digest job set."])
  | _ => (remove_all js q, [Plain "🛑 Daily digest canceled."])
  end.

(** A timer tick at [hh:mm]: the queue runs the callback of every job whose
    time of day it is. *)
Definition due (hh mm : Z) (q : JobQueue) : list Job :=
  filter (fun j => (job_hour j =? hh)%Z && (job_minute j =? mm)%Z) (jobs q).

Definition tick (env : Env) (hh mm : Z) (q : JobQueue) : list DigestRun :=
  map (fun j => digest_job env (job_chat_id j)) (due hh mm q).

Definition empty_queue : JobQueue := {| jobs := []; next_id := 0 |}.

(** ** Vocabulary of the statements *)

Definition fins (l : list Q) : Series := map Fin l.

Definition Qsum (l : list Q) : Q := fold_right Qplus 0 l.

(** The arithmetic mean of a list. *)
Definition mean (l : list Q) : Q := Qsum l / inject_Z (Z.of_nat (length l)).

(** [l[i-w+1 .. i]], both ends included. *)
Definition window_at (w i : nat) (l : list Q) : list Q :=
  firstn w (skipn (i + 1 - w) l).

(** The last [w] entries of a list (all of it when it is shorter). *)
Definition lastn {A} (w : nat) (l : list A) : list A :=
  skipn (length l - w) l.




(** The running state of [rolling(w)] after the prefix [p] of a finite
    Series. *)
Definition roll_inv (w : nat) (p : list Q) (st : roll_state) : Prop :=
  roll_window st = fins (lastn w p) /\
  roll_nobs st = length (lastn w p) /\
  exists s, roll_sum st = Fin s /\ s == Qsum (lastn w p).

(** A float that is NaN or a rational satisfying [P]. *)
Definition nan_or (P : Q -> Prop) (v : float) : Prop :=
  v = NaN \/ exists q, v = Fin q /\ P q.

(** The running state of [ewm] over non-negative values. *)
Definition ewm_inv (st : ewm_state) : Prop :=
  nan_or (fun q => 0 <= q) (ewm_weighted st) /\ 0 <= ewm_old_wt st.

(** ** Sample inputs *)

Definition bar_of_close (c : Z) : PriceBar :=
  {| bar_date := "2024-01-01"; bar_open := inject_Z c; bar_high := inject_Z c;
     bar_low := inject_Z c; bar_close := inject_Z c |}.

Definition frame_of_closes (l : list Z) : DataFrame := map bar_of_close l.



(** Fifteen equal closes. *)
Definition flat15 : list Q := repeat 1 15.

(** Sixteen closes that rise by one from bar to bar. *)
Definition rising16 : list Q :=
  map inject_Z [1; 2; 3; 4; 5; 6; 7; 8; 9; 10; 11; 12; 13; 14; 15; 16]%Z.

(** 199 bars at 2, then 1, then 3: on the last bar the two averages are
    equal, on the bar before it the short one is below the long one. *)
Definition touch_frame : DataFrame :=
  frame_of_closes (repeat 2%Z 199 ++ [1; 3]%Z).

(** 200 bars at 1, then 2: the short average rises above the long one on
    the last bar. *)
Definition cross_up_frame : DataFrame :=
  frame_of_closes (repeat 1%Z 200 ++ [2]%Z).

(** Ten bars. *)
Definition short_frame : DataFrame := frame_of_closes (repeat 1%Z 10).

Definition provider_of (df : DataFrame) : QuoteProvider := fun _ _ => Ok df.

Definition index_error : exn :=
  Exn IndexError "single positional indexer is out-of-bounds".

(** What [analyze_pair] builds from the last two rows it selected. *)
Definition snapshot_of (base quote : string) (latest prev : Row) : Snapshot :=
  {| pair := (base ++ "/" ++ quote)%string;
     price := row_close latest;
     snap_rsi := RSI14 latest;
     rsi_state :=
       if fge (RSI14 latest) (Fin 70) then "Overbought"
       else if fle (RSI14 latest) (Fin 30) then "Oversold"
       else "Neutral";
     sma50 := SMA50 latest;
     sma200 := SMA200 latest;
     momentum := MOM5 latest;
     tilt :=
       if fgt (SMA50 latest) (SMA200 latest) then "⬆️ Bullish tilt"
       else if flt (SMA50 latest) (SMA200 latest) then "⬇️ Bearish tilt"
       else "➡️ Sideways";
     signals :=
       match cross_signals latest prev with
       | [] => "—"
       | _ => join "; " (cross_signals latest prev)
       end;
     asof := bar_date (row_bar latest) |}.

(** ** The registry, as the statements see it *)

Definition jobs_of_chat (chat : Z) (q : JobQueue) : list Job :=
  filter (fun j => (job_chat_id j =? chat)%Z) (jobs q).

Definition one_digest_per_chat (q : JobQueue) : Prop :=
  forall chat, (length (jobs_of_chat chat q) <= 1)%nat.

(** A queue as this program builds it: every job is named after its chat,
    and job identities are distinct and below the next one to be given. *)
Record queue_wf (q : JobQueue) : Prop := {
  wf_names : forall j, In j (jobs q) -> job_name j = digest_name (job_chat_id j);
  wf_fresh : forall j, In j (jobs q) -> (job_id j < next_id q)%nat;
  wf_ids : NoDup (map job_id (jobs q))
}.

Arguments wf_names q : clear implicits.
Arguments wf_fresh q : clear implicits.
Arguments wf_ids q : clear implicits.

(** The queues the two commands can produce from the empty one. *)
Inductive reachable (env : Env) : JobQueue -> Prop :=
| reach_empty : reachable env empty_queue
| reach_schedule q args chat :
    reachable env q -> reachable env (fst (schedule_digest_cmd env args chat q))
| reach_cancel q chat :
    reachable env q -> reachable env (fst (cancel_digest_cmd chat q)).

(** The texts that stand for an integer, described without the parser.
    [digits_text s v]: [s] is a run of decimal digits, single underscores
    allowed between two digits, and [v] is the number the digits spell. *)
Definition digit_value (d : ascii) : Z := Z.of_nat (nat_of_ascii d - 48).

Inductive digits_text : string -> Z -> Prop :=
| digits_one d :
    is_digit d = true -> digits_text (String d "") (digit_value d)
| digits_next s v d :
    digits_text s v -> is_digit d = true ->
    digits_text (s ++ String d "") (10 * v + digit_value d)
| digits_under s v d :
    digits_text s v -> is_digit d = true ->
    digits_text (s ++ String "_" (String d "")) (10 * v + digit_value d).

Fixpoint all_blank (s : string) : bool :=
  match s with
  | EmptyString => true
  | String c r => is_space c && all_blank r
  end.

(** [int_text s z]: [s] is blanks, an optional sign, digits, blanks, and
    [z] is the signed number. *)
Definition int_text (s : string) (z : Z) : Prop :=
  exists pre body post v,
    all_blank pre = true /\ all_blank post = true /\ digits_text body v /\
    (s = (pre ++ body ++ post)%string /\ z = v \/
     s = (pre ++ "+" ++ body ++ post)%string /\ z = v \/
     s = (pre ++ "-" ++ body ++ post)%string /\ z = (- v)%Z).

(** A time the command takes: two integer texts around one colon, the hour
    in 0..23 and the minute in 0..59. *)
Definition time_ok (s : string) : Prop :=
  exists a b hh mm,
    s = (a ++ ":" ++ b)%string /\
    int_text a hh /\ int_text b mm /\
    (0 <= hh <= 23)%Z /\ (0 <= mm <= 59)%Z.

(** The job [run_daily] adds. *)
Definition new_job (hh mm chat : Z) (q : JobQueue) : Job :=
  {| job_id := next_id q; job_name := digest_name chat;
     job_hour := hh; job_minute := mm; job_chat_id := chat |}.

Definition other_chats (chat : Z) (l : list Job) : list Job :=
  filter (fun k => negb (job_chat_id k =? chat)%Z) l.

Definition sample_env : Env :=
  {| NEWSAPI_KEY := None;
     TZ_NAME := "Africa/Lagos";
     fetch_fx_daily := fun _ _ => Raise (Exn RuntimeError "No time series returned.");
     newsapi_articles := Ok [] |}.

(** The queue after [/schedule_digest 08:30] in chat 1. *)
Definition morning_queue : JobQueue :=
  fst (schedule_digest_cmd sample_env ["08:30"] 1 empty_queue).

Definition set_reply (env : Env) (hh mm : Z) : string :=
  ("✅ Daily digest set for " ++ pad2 hh ++ ":" ++ pad2 mm
   ++ " (" ++ TZ_NAME env ++ ").")%string.

(** ** Batches, as the statements see them *)

Definition analyzed (env : Env) (p : string * string) : result Snapshot :=
  analyze_pair (fetch_fx_daily env) (fst p) (snd p).

(** The snapshots of the pairs whose analysis succeeded, in order. *)
Definition successes (env : Env) (pairs : list (string * string))
  : list Snapshot :=
  flat_map (fun p => match analyzed env p with Ok a => [a] | Raise _ => [] end)
           pairs.

(** The pairs whose analysis raised, in order, with what was raised. *)
Definition failures (env : Env) (pairs : list (string * string))
  : list (string * string * exn) :=
  flat_map (fun p => match analyzed env p with Ok _ => [] | Raise e => [(p, e)] end)
           pairs.

Definition trends_error (f : string * string * exn) : string :=
  (pair_label (fst (fst f)) (snd (fst f)) ++ ": " ++ exn_msg (snd f))%string.

Definition digest_warning (f : string * string * exn) : string :=
  ("digest pair fail " ++ pair_label (fst (fst f)) (snd (fst f))
   ++ ": " ++ exn_msg (snd f))%string.

Definition failure_summary (errs : list string) : Message :=
  Plain ("Some pairs failed:" ++ nl ++ join nl (firstn 5 errs))%string.



Definition no_data : exn := Exn RuntimeError "No time series returned.".

(** A world where every pair has data except GBP/USD. *)
Definition gbp_fails_env : Env :=
  {| NEWSAPI_KEY := None;
     TZ_NAME := "Africa/Lagos";
     fetch_fx_daily := fun base quote =>
       if String.eqb base "GBP" then Raise no_data else Ok cross_up_frame;
     newsapi_articles := Ok [] |}.


(** ** Definedness of the columns *)

Definition is_fin (v : float) : Prop := exists q, v = Fin q.

(** The number of non-NaN entries. *)
Definition count_obs (s : Series) : nat :=
  length (filter (fun v => negb (isnan v)) s).

(** The running state of [ewm] over a Series of finite values and NaN: once
    a value has been seen the weighted mean is finite. *)
Definition ewm_seen (st : ewm_state) : Prop :=
  ewm_inv st /\ ((0 < ewm_nobs st)%nat -> is_fin (ewm_weighted st)).

Definition positive_closes (df : DataFrame) : Prop :=
  Forall (fun b => 0 < bar_close b) df.

(** ** More vocabulary: series *)

(** Closes of a magnitude at which the sums the program forms of them stay
    far below the largest double. *)
Definition price_bound : Q := inject_Z (10 ^ 300).

Definition in_price_range (c : Q) : Prop :=
  - price_bound <= c /\ c <= price_bound.

Definition bounded_closes (df : DataFrame) : Prop :=
  Forall (fun b => in_price_range (bar_close b)) df.

(** The same, as a test. *)
Definition in_price_rangeb (c : Q) : bool :=
  Qle_bool (- price_bound) c && Qle_bool c price_bound.

(** ** The rest of bot.py *)

(** *** [fetch_fx_daily] (lines 45-60)

    What the provider answers, once the JSON is read: the two keys that
    announce a problem, and the daily series with one bar per date key, its
    cells as the numbers [astype(float)] makes of them.  A key that is
    absent is [None]. *)
Record FxPayload := {
  fx_note : option string;                  (* "Note" *)
  fx_error_message : option string;         (* "Error Message" *)
  fx_time_series : option (list PriceBar)   (* "Time Series FX (Daily)" *)
}.

(** [a or b] on values that are a string or missing. *)
Definition str_or (a : option string) (b : string) : string :=
  match a with
  | Some s => if (String.length s =? 0)%nat then b else s
  | None => b
  end.

Definition is_present {A} (a : option A) : bool :=
  match a with Some _ => true | None => false end.

Fixpoint insert_by_date (b : PriceBar) (l : list PriceBar) : list PriceBar :=
  match l with
  | [] => [b]
  | x :: rest =>
      if String.leb (bar_date b) (bar_date x) then b :: l
      else x :: insert_by_date b rest
  end.

(** [df.sort_index()]: the rows in ascending order of their date string.
    The dates are the keys of one JSON object, hence distinct, so that the
    order does not depend on the sorting method. *)
Definition sort_index (l : list PriceBar) : DataFrame :=
  fold_right insert_by_date [] l.

(** [http] stands for [requests.get] followed by [raise_for_status] and
    [r.json()]: the payload, or the exception raised. *)
Definition fetch_fx_daily_from (http : string -> string -> result FxPayload)
  : QuoteProvider :=
  fun base quote =>
    data <- http base quote ;;
    if is_present (fx_note data) || is_present (fx_error_message data)
    then Raise (Exn RuntimeError
                  (str_or (fx_note data)
                     (str_or (fx_error_message data) "API issue")))
    else match fx_time_series data with
         | None | Some [] => Raise (Exn RuntimeError "No time series returned.")
         | Some rows => Ok (sort_index rows)
         end.

(** *** ASCII letters *)

Definition upper_char (c : ascii) : ascii :=
  let n := nat_of_ascii c in
  if ((97 <=? n) && (n <=? 122))%nat then ascii_of_nat (n - 32) else c.

Definition lower_char (c : ascii) : ascii :=
  let n := nat_of_ascii c in
  if ((65 <=? n) && (n <=? 90))%nat then ascii_of_nat (n + 32) else c.

(** [s.upper()] and [s.lower()] on ASCII text. *)
Fixpoint upper (s : string) : string :=
  match s with
  | EmptyString => ""
  | String c r => String (upper_char c) (upper r)
  end.

Fixpoint lower (s : string) : string :=
  match s with
  | EmptyString => ""
  | String c r => String (lower_char c) (lower r)
  end.

(** Text of ASCII characters only: there [len] counts the characters of the
    model, and [upper] and [lower] are the ones above. *)
Fixpoint ascii_only (s : string) : bool :=
  match s with
  | EmptyString => true
  | String c r => (nat_of_ascii c <? 128)%nat && ascii_only r
  end.

(** [w in s]. *)
Fixpoint substr_in (w s : string) : bool :=
  String.prefix w s ||
  match s with
  | EmptyString => false
  | String _ r => substr_in w r
  end.

(** *** [forex_news_cmd] (lines 151-160) *)

Definition forex_news_cmd (env : Env) : list Message :=
  match get_forex_news env 6 with
  | Ok [] => [Plain "⚠️ No forex news now or NEWSAPI_KEY missing."]
  | Ok heads =>
      [Markdown ("📰 *Latest Forex Headlines:*" ++ nl ++ nl ++ join nl heads)%string]
  | Raise _ => [Plain "⚠️ Couldn’t fetch Forex news."]
  end.

(** *** [trend_one_cmd] (lines 175-187) *)

Definition trend_usage : string := "Usage: /trend EUR USD  or  /trend EURUSD".

Definition trend_reply (env : Env) (base quote : string) : list Message :=
  match analyze_pair (fetch_fx_daily env) base quote with
  | Ok a => [MarkdownTrends [a]]
  | Raise e => [Plain ("⚠️ Error: " ++ exn_msg e)%string]
  end.

Definition trend_one_cmd (env : Env) (args : list string) : list Message :=
  match args with
  | [] => [Plain trend_usage]
  | [a] =>
      if (String.length a =? 6)%nat
      then trend_reply env (upper (substring 0 3 a)) (upper (substring 3 3 a))
      else [Plain trend_usage]
  | a :: b :: _ => trend_reply env (upper a) (upper b)
  end.

(** *** [_is_join_event] and [welcome] (lines 115-125) *)

Definition HOUSE_RULES : string :=
  ("📌 *WyseForex House Rules*" ++ nl ++
   "1️⃣ Be respectful." ++ nl ++
   "2️⃣ No spam/scams." ++ nl ++
   "3️⃣ Stay on topic (Forex-related)." ++ nl ++
   "4️⃣ Help each other grow." ++ nl ++
   "5️⃣ DYOR. No financial advice.")%string.

(** [update.chat_member], when the update has one. *)
Record ChatMemberUpdated := {
  member_chat_id : Z;
  old_status : string;
  new_status : string;
  first_name : string
}.

Definition in_tuple (s : string) (l : list string) : bool :=
  existsb (String.eqb s) l.

Definition _is_join_event (chat_member : option ChatMemberUpdated) : bool :=
  match chat_member with
  | None => false
  | Some m =>
      in_tuple (old_status m) ["left"; "kicked"] &&
      in_tuple (new_status m) ["member"; "administrator"; "creator"]
  end.

Definition welcome (chat_member : option ChatMemberUpdated)
  : list (Z * Message) :=
  if negb (_is_join_event chat_member) then []
  else match chat_member with
       | None => []
       | Some m =>
           let name := str_or (Some (first_name m)) "Trader" in
           [(member_chat_id m,
             Markdown ("👋 Welcome, *" ++ name ++ "*!" ++ nl ++ nl
                       ++ HOUSE_RULES)%string)]
       end.

(** *** [echo] (lines 127-135) *)

Definition hello_reply : string := "👋 Hello! Welcome to WyseForex!".
Definition help_reply : string := "Try /forexnews, /trends, or /trend EUR USD".
Definition other_reply : string :=
  "I’m here to help! /forexnews • /trends • /trend EUR USD".

(** [text] is [update.message.text], or [None] without a message or a
    text. *)
Definition echo (text : option string) : list Message :=
  match text with
  | None => []
  | Some t =>
      if (String.length t =? 0)%nat then []
      else
        let t := lower t in
        if substr_in "hello" t then [Plain hello_reply]
        else if substr_in "help" t then [Plain help_reply]
        else [Plain other_reply]
  end.

(** ** More sample inputs *)

Definition bar_on (d : string) (c : Z) : PriceBar :=
  {| bar_date := d; bar_open := inject_Z c; bar_high := inject_Z c;
     bar_low := inject_Z c; bar_close := inject_Z c |}.

(** A provider that sends three days, newest first. *)
Definition newest_first_http : string -> string -> result FxPayload :=
  fun _ _ =>
    Ok {| fx_note := None; fx_error_message := None;
          fx_time_series :=
            Some [bar_on "2024-01-03" 3; bar_on "2024-01-02" 2;
                  bar_on "2024-01-01" 1] |}.

(** A provider that is throttling, and sends data all the same. *)
Definition throttled_http : string -> string -> result FxPayload :=
  fun _ _ =>
    Ok {| fx_note := Some "Thank you for using Alpha Vantage!";
          fx_error_message := None;
          fx_time_series := Some [bar_on "2024-01-01" 1] |}.

(** The provider answers with an empty note, and a series. *)
Definition empty_note_http : string -> string -> result FxPayload :=
  fun _ _ =>
    Ok {| fx_note := Some "";
          fx_error_message := None;
          fx_time_series := Some [bar_on "2024-01-01" 1] |}.

Definition throttled_env : Env :=
  {| NEWSAPI_KEY := Some "k";
     TZ_NAME := "Africa/Lagos";
     fetch_fx_daily := fetch_fx_daily_from throttled_http;
     newsapi_articles := Raise (Exn HTTPError "401 Client Error") |}.

(** A news provider with eight articles, the second without a title. *)
Definition eight_articles : list Article :=
  {| article_title := Some "Dollar steadies" |}
  :: {| article_title := None |}
  :: repeat {| article_title := Some "Euro slips" |} 6.

Definition news_env : Env :=
  {| NEWSAPI_KEY := Some "k";
     TZ_NAME := "Africa/Lagos";
     fetch_fx_daily := fun _ _ => Raise no_data;
     newsapi_articles := Ok eight_articles |}.

(** ** More vocabulary: the registry *)

(** A time of day the scheduler accepts. *)
Definition valid_time (hh mm : Z) : Prop :=
  (0 <= hh < 24)%Z /\ (0 <= mm < 60)%Z.

(** Every job of the queue fires at a valid time of day. *)
Definition times_valid (q : JobQueue) : Prop :=
  forall j, In j (jobs q) -> valid_time (job_hour j) (job_minute j).

(** The time as the confirmation shows it. *)
Definition shown_time (hh mm : Z) : string :=
  (pad2 hh ++ ":" ++ pad2 mm)%string.

(** The test that the shown time of [hh:mm] parses back to [hh:mm]. *)
Definition shown_time_parses (h m : nat) : bool :=
  match parse_time (shown_time (Z.of_nat h) (Z.of_nat m)) with
  | Some (hh, mm) => ((hh =? Z.of_nat h) && (mm =? Z.of_nat m))%Z
  | None => false
  end.

(** The test that the two-digit text of [h:m] is turned down unless [h:m]
    is a time of day. *)
Definition shown_time_fails (h m : nat) : bool :=
  match parse_time (shown_time (Z.of_nat h) (Z.of_nat m)) with
  | None => true
  | Some _ => ((h <? 24) && (m <? 60))%nat
  end.

(** The messages that a list of digest runs sends to one chat. *)
Definition sent_to (chat : Z) (runs : list DigestRun) : list (Z * Message) :=
  filter (fun cm => (fst cm =? chat)%Z) (flat_map sent runs).

(** The news provider refuses, the quote provider has data. *)
Definition news_fails_quotes_ok_env : Env :=
  {| NEWSAPI_KEY := Some "k";
     TZ_NAME := "Africa/Lagos";
     fetch_fx_daily := provider_of cross_up_frame;
     newsapi_articles := Raise (Exn HTTPError "401 Client Error") |}.

(** * Theorems *)

(** ** Lists and sums *)

Lemma lastn_length {A} w (l : list A) :
  length (lastn w l) = Nat.min w (length l).
Proof. unfold lastn. rewrite length_skipn. lia. Qed.

Lemma lastn_short {A} w (l : list A) :
  (length l <= w)%nat -> lastn w l = l.
Proof.
  intros H. unfold lastn. replace (length l - w)%nat with 0%nat by lia.
  reflexivity.
Qed.

Lemma lastn_snoc_short {A} w (l : list A) x :
  (length l < w)%nat -> lastn w (l ++ [x]) = lastn w l ++ [x].
Proof.
  intros H. rewrite (lastn_short w l) by lia.
  apply lastn_short. rewrite length_app. simpl. lia.
Qed.

Lemma lastn_snoc_full {A} w (l : list A) x :
  (1 <= w)%nat -> (w <= length l)%nat ->
  lastn w (l ++ [x]) = tl (lastn w l) ++ [x].
Proof.
  intros Hw H. unfold lastn. rewrite length_app. simpl.
  replace (length l + 1 - w)%nat with (S (length l - w)) by lia.
  remember (length l - w)%nat as k eqn:Hk.
  assert (Hlt : (k < length l)%nat) by lia.
  clear Hk H Hw. revert k Hlt.
  induction l as [|a l IH]; intros k Hlt; simpl in *; [lia|].
  destruct k as [|k]; [reflexivity|].
  apply IH. lia.
Qed.

Lemma filter_twice {A} (f g : A -> bool) l :
  filter f (filter g l) = filter (fun x => g x && f x) l.
Proof.
  induction l as [|a l IH]; simpl; [reflexivity|].
  destruct (g a); simpl; [destruct (f a)|]; rewrite IH; reflexivity.
Qed.

Lemma filter_all {A} (f : A -> bool) l :
  (forall x, In x l -> f x = true) -> filter f l = l.
Proof.
  induction l as [|a l IH]; simpl; intros H; [reflexivity|].
  rewrite (H a) by auto. f_equal. apply IH. auto.
Qed.

Lemma filter_none {A} (f : A -> bool) l :
  (forall x, In x l -> f x = false) -> filter f l = [].
Proof.
  induction l as [|a l IH]; simpl; intros H; [reflexivity|].
  rewrite (H a) by auto. apply IH. auto.
Qed.

Lemma Qsum_snoc l x : Qsum (l ++ [x]) == Qsum l + x.
Proof.
  induction l as [|a l IH]; simpl.
  - ring.
  - rewrite IH. ring.
Qed.

Lemma lastn_firstn_window w i (l : list Q) :
  (w <= i + 1)%nat -> (i < length l)%nat ->
  lastn w (firstn (i + 1) l) = window_at w i l.
Proof.
  intros Hw Hi. unfold lastn, window_at.
  rewrite length_firstn.
  replace (Nat.min (i + 1) (length l)) with (i + 1)%nat by lia.
  rewrite firstn_skipn_comm.
  replace (i + 1 - w + w)%nat with (i + 1)%nat by lia.
  reflexivity.
Qed.

(** ** The rolling mean *)

Lemma Qis_zero_of_pos n : (0 < n)%nat -> Qis_zero (inject_Z (Z.of_nat n)) = false.
Proof.
  intros H. unfold Qis_zero. destruct (Qeq_bool _ 0) eqn:E; [|reflexivity].
  apply Qeq_bool_eq in E. unfold Qeq in E. simpl in E. lia.
Qed.

Lemma roll_inv_init w : roll_inv w [] (RollState [] 0 (Fin 0)).
Proof.
  unfold roll_inv, lastn; simpl. repeat split.
  exists 0. split; reflexivity.
Qed.

Lemma roll_inv_step w p st x :
  (1 <= w)%nat -> roll_inv w p st ->
  roll_inv w (p ++ [x]) (add_mean (Fin x) (remove_mean w st)).
Proof.
  intros Hw (Hwin & Hn & s & Hs & Hsum).
  unfold remove_mean. rewrite Hwin. unfold fins at 1. rewrite length_map, lastn_length.
  destruct (Nat.ltb_spec (Nat.min w (length p)) w) as [Hlt|Hge].
  - (* the window is not full yet *)
    assert (Hp : (length p < w)%nat) by lia.
    unfold add_mean, roll_inv; simpl. rewrite Hwin, Hn, Hs.
    rewrite lastn_snoc_short by exact Hp.
    repeat split.
    + unfold fins. rewrite map_app. reflexivity.
    + rewrite length_app. simpl. lia.
    + exists (s + x). split; [reflexivity|]. rewrite Qsum_snoc, Hsum. reflexivity.
  - (* the oldest value leaves *)
    assert (Hp : (w <= length p)%nat) by lia.
    unfold roll_inv. rewrite lastn_snoc_full by assumption.
    assert (Hlen := lastn_length w p).
    destruct (lastn w p) as [|old win'] eqn:E; simpl in Hlen; [lia|].
    unfold fins; simpl. unfold add_mean; simpl. rewrite Hn, Hs.
    simpl. repeat split.
    + rewrite map_app. reflexivity.
    + rewrite length_app. simpl. lia.
    + exists (s + - old + x). split; [reflexivity|].
      rewrite Qsum_snoc, Hsum. simpl. ring.
Qed.

Lemma calc_mean_inv w p st :
  (1 <= w)%nat -> roll_inv w p st ->
  if (w <=? length p)%nat
  then exists m, calc_mean w st = Fin m /\ m == mean (lastn w p)
  else calc_mean w st = NaN.
Proof.
  intros Hw (Hwin & Hn & s & Hs & Hsum).
  unfold calc_mean. rewrite Hn, Hs, lastn_length.
  destruct (Nat.leb_spec w (length p)) as [Hle|Hgt].
  - replace (Nat.min w (length p)) with w by lia.
    rewrite Nat.leb_refl. replace (0 <? w)%nat with true
      by (symmetry; apply Nat.ltb_lt; lia).
    simpl. rewrite Qis_zero_of_pos by lia.
    exists (s / inject_Z (Z.of_nat w)). split; [reflexivity|].
    unfold mean. rewrite lastn_length.
    replace (Nat.min w (length p)) with w by lia.
    rewrite Hsum. reflexivity.
  - replace (w <=? Nat.min w (length p))%nat with false
      by (symmetry; apply Nat.leb_gt; lia).
    reflexivity.
Qed.

Lemma rolling_mean_from_nth w (Hw : (1 <= w)%nat) :
  forall rest p st i x,
    roll_inv w p st -> nth_error rest i = Some x ->
    exists v, nth_error (rolling_mean_from w st (fins rest)) i = Some v /\
      if (w <=? length p + i + 1)%nat
      then exists m, v = Fin m /\ m == mean (lastn w (p ++ firstn (i + 1) rest))
      else v = NaN.
Proof.
  induction rest as [|y rest IH]; intros p st i x Hinv Hnth.
  - destruct i; discriminate.
  - assert (Hinv' := roll_inv_step w p st y Hw Hinv).
    destruct i as [|i]; simpl.
    + exists (calc_mean w (add_mean (Fin y) (remove_mean w st))). split; [reflexivity|].
      pose proof (calc_mean_inv w _ _ Hw Hinv') as Hc.
      rewrite length_app in Hc. simpl in Hc.
      replace (length p + 0 + 1)%nat with (length p + 1)%nat by lia.
      exact Hc.
    + simpl in Hnth.
      destruct (IH (p ++ [y]) _ i x Hinv' Hnth) as (v & Hv & Hspec).
      exists v. split; [exact Hv|].
      rewrite length_app in Hspec. simpl in Hspec.
      replace (length p + S i + 1)%nat with (length p + 1 + i + 1)%nat by lia.
      rewrite <- app_assoc in Hspec. exact Hspec.
Qed.

Lemma rolling_mean_nth w closes i :
  (1 <= w)%nat -> (i < length closes)%nat ->
  exists v, nth_error (rolling_mean w (fins closes)) i = Some v /\
    if (w <=? i + 1)%nat
    then exists m, v = Fin m /\ m == mean (window_at w i closes)
    else v = NaN.
Proof.
  intros Hw Hi.
  destruct (nth_error closes i) as [x|] eqn:E;
    [|apply nth_error_None in E; lia].
  destruct (rolling_mean_from_nth w Hw closes [] _ i x (roll_inv_init w) E)
    as (v & Hv & Hspec).
  exists v. split; [exact Hv|]. simpl in Hspec.
  destruct (Nat.leb_spec w (i + 1)) as [Hle|Hgt]; [|exact Hspec].
  rewrite lastn_firstn_window in Hspec by assumption. exact Hspec.
Qed.

(** ** The columns of the frame *)

Lemma rolling_mean_from_length w : forall s st,
  length (rolling_mean_from w st s) = length s.
Proof. induction s as [|v s IH]; intros st; simpl; [|rewrite IH]; reflexivity. Qed.

Lemma ewm_mean_from_length alpha minp : forall s st,
  length (ewm_mean_from alpha minp st s) = length s.
Proof. induction s as [|v s IH]; intros st; simpl; [|rewrite IH]; reflexivity. Qed.

Lemma diff_from_length : forall s prev, length (diff_from prev s) = length s.
Proof. induction s as [|v s IH]; intros prev; simpl; [|rewrite IH]; reflexivity. Qed.

Lemma zip_with_length f : forall s t,
  length s = length t -> length (zip_with f s t) = length s.
Proof.
  induction s as [|x s IH]; intros [|y t] H; simpl in *; try discriminate;
    [reflexivity|]. rewrite IH by congruence. reflexivity.
Qed.

Lemma shift_length k s : length (shift k s) = length s.
Proof.
  unfold shift. rewrite length_firstn, length_app, repeat_length. lia.
Qed.

Lemma rsi_avg_gain_length s p : length (rsi_avg_gain s p) = length s.
Proof.
  unfold rsi_avg_gain, ewm_mean, clip_lower, diff.
  rewrite ewm_mean_from_length, length_map, diff_from_length. reflexivity.
Qed.

Lemma rsi_avg_loss_raw_length s p : length (rsi_avg_loss_raw s p) = length s.
Proof.
  unfold rsi_avg_loss_raw, ewm_mean, neg, clip_upper, diff.
  rewrite ewm_mean_from_length, !length_map, diff_from_length. reflexivity.
Qed.

Lemma rsi_avg_loss_length s p : length (rsi_avg_loss s p) = length s.
Proof.
  unfold rsi_avg_loss, replace. rewrite length_map. apply rsi_avg_loss_raw_length.
Qed.

Lemma rsi_length s p : length (rsi s p) = length s.
Proof.
  unfold rsi. rewrite zip_with_length; rewrite rsi_avg_gain_length;
    [reflexivity|]. symmetry. apply rsi_avg_loss_length.
Qed.

Lemma pct_change_length k s : length (pct_change k s) = length s.
Proof.
  unfold pct_change. apply zip_with_length. symmetry. apply shift_length.
Qed.

Lemma make_rows_columns : forall bars a b c d,
  length a = length bars -> length b = length bars ->
  length c = length bars -> length d = length bars ->
  map row_bar (make_rows bars a b c d) = bars /\
  map SMA50 (make_rows bars a b c d) = a /\
  map SMA200 (make_rows bars a b c d) = b /\
  map RSI14 (make_rows bars a b c d) = c /\
  map MOM5 (make_rows bars a b c d) = d.
Proof.
  induction bars as [|x bars IH]; intros [|a0 a] [|b0 b] [|c0 c] [|d0 d];
    simpl; intros Ha Hb Hc Hd; try discriminate; [repeat split|].
  destruct (IH a b c d) as (H1 & H2 & H3 & H4 & H5); try congruence.
  rewrite H1, H2, H3, H4, H5. repeat split.
Qed.

Lemma close_column_fins df : close_column df = fins (map bar_close df).
Proof. unfold close_column, fins. rewrite map_map. reflexivity. Qed.

Lemma with_indicators_columns df :
  map row_bar (with_indicators df) = df /\
  map SMA50 (with_indicators df) = rolling_mean 50 (close_column df) /\
  map SMA200 (with_indicators df) = rolling_mean 200 (close_column df) /\
  map RSI14 (with_indicators df) = rsi (close_column df) 14 /\
  map MOM5 (with_indicators df)
    = map (fun x => fmul x (Fin 100)) (pct_change 5 (close_column df)).
Proof.
  unfold with_indicators.
  assert (Hc : length (close_column df) = length df)
    by (unfold close_column; apply length_map).
  apply make_rows_columns.
  - unfold rolling_mean. rewrite rolling_mean_from_length. exact Hc.
  - unfold rolling_mean. rewrite rolling_mean_from_length. exact Hc.
  - rewrite rsi_length. exact Hc.
  - rewrite length_map, pct_change_length. exact Hc.
Qed.

Lemma with_indicators_length df : length (with_indicators df) = length df.
Proof.
  destruct (with_indicators_columns df) as (H & _).
  rewrite <- H at 2. rewrite length_map. reflexivity.
Qed.

Lemma column_nth {A} (f : Row -> A) rows col i r :
  map f rows = col -> nth_error rows i = Some r -> nth_error col i = Some (f r).
Proof. intros <- H. rewrite nth_error_map, H. reflexivity. Qed.

(** The moving averages of row [i], for both windows. *)
Lemma sma_of_row w (f : Row -> float) df i r :
  (1 <= w)%nat ->
  map f (with_indicators df) = rolling_mean w (close_column df) ->
  nth_error (with_indicators df) i = Some r ->
  if (w <=? i + 1)%nat
  then exists m, f r = Fin m /\ m == mean (window_at w i (map bar_close df))
  else f r = NaN.
Proof.
  intros Hw Hcol Hr.
  assert (Hi : (i < length df)%nat).
  { rewrite <- with_indicators_length. apply nth_error_Some. congruence. }
  pose proof (column_nth f _ _ i r Hcol Hr) as Hnth.
  rewrite close_column_fins in Hnth.
  destruct (rolling_mean_nth w (map bar_close df) i Hw) as (v & Hv & Hspec).
  { rewrite length_map. exact Hi. }
  rewrite Hv in Hnth. injection Hnth as ->. exact Hspec.
Qed.







(** ** RSI *)

Lemma Qis_zero_false q : ~ q == 0 -> Qis_zero q = false.
Proof.
  intros H. unfold Qis_zero. destruct (Qeq_bool q 0) eqn:E; [|reflexivity].
  apply Qeq_bool_eq in E. contradiction.
Qed.

Lemma Qis_zero_true q : Qis_zero q = true -> q == 0.
Proof. apply Qeq_bool_eq. Qed.

Lemma flt_Fin a b : flt (Fin a) (Fin b) = true <-> a < b.
Proof.
  simpl. destruct (Qlt_le_dec a b) as [H|H]; split; intros H'; try assumption;
    try reflexivity; try discriminate. exfalso. lra.
Qed.

Lemma flt_Fin_false a b : flt (Fin a) (Fin b) = false <-> b <= a.
Proof.
  simpl. destruct (Qlt_le_dec a b) as [H|H]; split; intros H'; try assumption;
    try reflexivity; try discriminate. exfalso. lra.
Qed.

Lemma nan_or_weaken (P R : Q -> Prop) v :
  (forall q, P q -> R q) -> nan_or P v -> nan_or R v.
Proof.
  intros H [->|(q & -> & Hq)]; [left; reflexivity|right; eauto].
Qed.

Lemma diff_from_fins : forall l prev,
  nan_or (fun _ => True) prev ->
  Forall (nan_or (fun _ => True)) (diff_from prev (fins l)).
Proof.
  induction l as [|x l IH]; intros prev Hp; simpl; constructor.
  - destruct Hp as [->|(q & -> & _)]; [left; reflexivity|].
    right. eexists. split; [reflexivity|exact I].
  - apply IH. right. eexists. split; [reflexivity|exact I].
Qed.

Lemma gain_nonneg l :
  Forall (nan_or (fun q => 0 <= q)) (clip_lower (Fin 0) (diff (fins l))).
Proof.
  unfold clip_lower, diff. apply Forall_map.
  eapply Forall_impl; [|apply diff_from_fins; left; reflexivity].
  intros v [->|(q & -> & _)]; [left; reflexivity|].
  right. destruct (flt (Fin q) (Fin 0)) eqn:E.
  - exists 0. split; [reflexivity|lra].
  - exists q. split; [reflexivity|]. apply flt_Fin_false in E. exact E.
Qed.

Lemma loss_nonneg l :
  Forall (nan_or (fun q => 0 <= q)) (neg (clip_upper (Fin 0) (diff (fins l)))).
Proof.
  unfold neg, clip_upper, diff. rewrite map_map. apply Forall_map.
  eapply Forall_impl; [|apply diff_from_fins; left; reflexivity].
  intros v [->|(q & -> & _)]; [left; reflexivity|].
  right. destruct (flt (Fin 0) (Fin q)) eqn:E.
  - exists (- 0). split; [reflexivity|lra].
  - exists (- q). split; [reflexivity|]. apply flt_Fin_false in E. lra.
Qed.

Lemma ewm_step_inv alpha cur st :
  0 <= alpha -> alpha <= 1 ->
  nan_or (fun q => 0 <= q) cur -> ewm_inv st -> ewm_inv (ewm_step alpha cur st).
Proof.
  intros Ha0 Ha1 Hcur (Hw & How).
  assert (How' : 0 <= ewm_old_wt st * (1 - alpha)).
  { apply Qmult_le_0_compat; lra. }
  unfold ewm_step, ewm_inv.
  destruct Hw as [Ew|(w & Ew & Hw)], Hcur as [->|(c & -> & Hc)];
    rewrite Ew; simpl; try (split; [|assumption]).
  - left; reflexivity.
  - right; eauto.
  - right; eauto.
  - destruct (Qeq_bool w c); simpl.
    + split; [right; eauto|lra].
    + rewrite Qis_zero_false by lra.
      split; [|lra]. right. eexists. split; [reflexivity|].
      apply Qle_shift_div_l; [lra|].
      assert (0 <= ewm_old_wt st * (1 - alpha) * w)
        by (apply Qmult_le_0_compat; assumption).
      lra.
Qed.

Lemma ewm_mean_from_nonneg alpha minp :
  0 <= alpha -> alpha <= 1 ->
  forall s st, Forall (nan_or (fun q => 0 <= q)) s -> ewm_inv st ->
    Forall (nan_or (fun q => 0 <= q)) (ewm_mean_from alpha minp st s).
Proof.
  intros Ha0 Ha1. induction s as [|cur s IH]; intros st Hs Hst; simpl;
    constructor; inversion Hs; subst.
  - destruct (_ <=? _)%nat; [|left; reflexivity].
    apply (ewm_step_inv alpha cur st); assumption.
  - apply IH; [assumption|]. apply ewm_step_inv; assumption.
Qed.

Lemma alpha_bounds period :
  (1 <= period)%nat ->
  0 <= 1 / inject_Z (Z.of_nat period) /\ 1 / inject_Z (Z.of_nat period) <= 1.
Proof.
  intros H.
  assert (Hp : 1 <= inject_Z (Z.of_nat period)).
  { unfold Qle; simpl. lia. }
  split.
  - apply Qle_shift_div_l; lra.
  - apply Qle_shift_div_r; lra.
Qed.

Lemma ewm_inv_init : ewm_inv (EwmState NaN 1 0).
Proof. split; simpl; [left; reflexivity|lra]. Qed.

Lemma rsi_avg_gain_nonneg l period :
  (1 <= period)%nat ->
  Forall (nan_or (fun q => 0 <= q)) (rsi_avg_gain (fins l) period).
Proof.
  intros H. destruct (alpha_bounds period H).
  apply ewm_mean_from_nonneg; auto using gain_nonneg, ewm_inv_init.
Qed.

Lemma rsi_avg_loss_raw_nonneg l period :
  (1 <= period)%nat ->
  Forall (nan_or (fun q => 0 <= q)) (rsi_avg_loss_raw (fins l) period).
Proof.
  intros H. destruct (alpha_bounds period H).
  apply ewm_mean_from_nonneg; auto using loss_nonneg, ewm_inv_init.
Qed.

Lemma floor_pos : 0 < floor_1e_9.
Proof. reflexivity. Qed.

Lemma replace_floor v :
  nan_or (fun q => 0 <= q) v ->
  nan_or (fun q => 0 < q) (if feqb v (Fin 0) then Fin floor_1e_9 else v).
Proof.
  intros [->|(q & -> & Hq)]; [left; reflexivity|]. right. simpl.
  destruct (Qeq_bool q 0) eqn:E.
  - exists floor_1e_9. split; [reflexivity|apply floor_pos].
  - exists q. split; [reflexivity|].
    apply Qeq_bool_neq in E. destruct (Qlt_le_dec 0 q); [assumption|].
    exfalso. apply E. lra.
Qed.

Lemma rsi_avg_loss_pos l period :
  (1 <= period)%nat ->
  Forall (nan_or (fun q => 0 < q)) (rsi_avg_loss (fins l) period).
Proof.
  intros H. unfold rsi_avg_loss, replace. apply Forall_map.
  eapply Forall_impl; [|apply rsi_avg_loss_raw_nonneg; exact H].
  intros v Hv. apply replace_floor. exact Hv.
Qed.

(** The value of one RSI entry, when both averages are defined. *)
Lemma rsi_of_Fin g l :
  0 <= g -> 0 < l ->
  rsi_of (Fin g) (Fin l) = Fin (100 + - (100 / (1 + g / l))).
Proof.
  intros Hg Hl. unfold rsi_of. simpl.
  rewrite (Qis_zero_false l) by lra. simpl.
  assert (0 <= g / l) by (apply Qle_shift_div_l; lra).
  rewrite Qis_zero_false by lra. reflexivity.
Qed.

Lemma rsi_value_bounds g l :
  0 <= g -> 0 < l ->
  0 <= 100 + - (100 / (1 + g / l)) /\ 100 + - (100 / (1 + g / l)) <= 100.
Proof.
  intros Hg Hl.
  assert (Hrs : 0 <= g / l) by (apply Qle_shift_div_l; lra).
  assert (H1 : 100 / (1 + g / l) <= 100) by (apply Qle_shift_div_r; lra).
  assert (H2 : 0 <= 100 / (1 + g / l)) by (apply Qle_shift_div_l; lra).
  lra.
Qed.

Lemma rsi_of_bounds g l :
  nan_or (fun q => 0 <= q) g -> nan_or (fun q => 0 < q) l ->
  nan_or (fun q => 0 <= q /\ q <= 100) (rsi_of g l).
Proof.
  intros [->|(a & -> & Ha)] [->|(b & -> & Hb)]; try (left; reflexivity).
  right. rewrite rsi_of_Fin by assumption.
  eexists. split; [reflexivity|]. apply rsi_value_bounds; assumption.
Qed.

Lemma zip_with_nth f : forall s t i x y,
  nth_error s i = Some x -> nth_error t i = Some y ->
  nth_error (zip_with f s t) i = Some (f x y).
Proof.
  induction s as [|a s IH]; intros [|b t] [|i] x y Hs Ht; simpl in *;
    try discriminate.
  - congruence.
  - eapply IH; eassumption.
Qed.

Lemma zip_with_nth_inv f : forall s t i v,
  nth_error (zip_with f s t) i = Some v ->
  exists x y, nth_error s i = Some x /\ nth_error t i = Some y /\ v = f x y.
Proof.
  induction s as [|a s IH]; intros [|b t] [|i] v H; simpl in *;
    try discriminate.
  - injection H as <-. eauto.
  - eapply IH; eassumption.
Qed.

Lemma Forall_nth {A} (P : A -> Prop) l i x :
  Forall P l -> nth_error l i = Some x -> P x.
Proof.
  intros H Hn. rewrite Forall_forall in H. apply H.
  eapply nth_error_In; eassumption.
Qed.

Lemma rsi_value_saturates g k :
  0 < k -> k * floor_1e_9 <= g ->
  100 - 100 / (1 + k) <= 100 + - (100 / (1 + g / floor_1e_9)).
Proof.
  intros Hk Hg. pose proof floor_pos as Hf.
  assert (Hrs : k <= g / floor_1e_9) by (apply Qle_shift_div_l; assumption).
  set (rs := g / floor_1e_9) in *.
  assert (H : 100 / (1 + rs) <= 100 / (1 + k)).
  { apply Qle_shift_div_l; [lra|].
    assert (E : 100 / (1 + rs) * (1 + k) == 100 * (1 + k) / (1 + rs))
      by (field; lra).
    rewrite E. apply Qle_shift_div_r; lra. }
  lra.
Qed.

(** C4 (as amended).  For every close series and every period of at least
    one bar: the average loss that [rsi] divides by is never zero, an
    average loss of exactly zero having been replaced by the floor [1e-9];
    every defined RSI value is finite and within [0, 100]; and where the
    average loss is exactly zero the RSI is 0 when the average gain is zero
    as well, at least 50 once the average gain reaches the floor [1e-9], and
    at least 99 once it reaches [1e-7]. *)
Theorem rsi_floor_and_range (closes : list Q) (period i : nat) :
  (1 <= period)%nat ->
  (forall l, nth_error (rsi_avg_loss (fins closes) period) i = Some l ->
     nan_or (fun q => 0 < q) l) /\
  (forall r, nth_error (rsi (fins closes) period) i = Some r ->
     nan_or (fun q => 0 <= q /\ q <= 100) r) /\
  (forall g l,
     nth_error (rsi_avg_gain (fins closes) period) i = Some (Fin g) ->
     nth_error (rsi_avg_loss_raw (fins closes) period) i = Some (Fin l) ->
     l == 0 ->
     nth_error (rsi_avg_loss (fins closes) period) i = Some (Fin floor_1e_9) /\
     exists q, nth_error (rsi (fins closes) period) i = Some (Fin q) /\
       (g == 0 -> q == 0) /\
       (floor_1e_9 <= g -> 50 <= q) /\
       ((1 # 10000000) <= g -> 99 <= q)).
Proof.
  intros Hp.
  pose proof (rsi_avg_gain_nonneg closes period Hp) as Hgain.
  pose proof (rsi_avg_loss_pos closes period Hp) as Hloss.
  split; [|split].
  - intros l Hl. exact (Forall_nth _ _ _ _ Hloss Hl).
  - intros r Hr. unfold rsi in Hr.
    apply zip_with_nth_inv in Hr. destruct Hr as (g & l & Hg & Hl & ->).
    apply rsi_of_bounds.
    + exact (Forall_nth _ _ _ _ Hgain Hg).
    + exact (Forall_nth _ _ _ _ Hloss Hl).
  - intros g l Hg Hl Hz.
    assert (Hfl : nth_error (rsi_avg_loss (fins closes) period) i
                  = Some (Fin floor_1e_9)).
    { unfold rsi_avg_loss, replace. rewrite nth_error_map, Hl. simpl.
      replace (Qeq_bool l 0) with true; [reflexivity|].
      symmetry. apply Qeq_eq_bool. exact Hz. }
    split; [exact Hfl|].
    assert (Hg0 : 0 <= g).
    { destruct (Forall_nth _ _ _ _ Hgain Hg) as [E|(q & E & Hq)];
        [discriminate|]. injection E as ->. exact Hq. }
    exists (100 + - (100 / (1 + g / floor_1e_9))).
    split; [|split; [|split]].
    + unfold rsi. erewrite zip_with_nth by eassumption.
      rewrite rsi_of_Fin by (assumption || apply floor_pos). reflexivity.
    + intros E. rewrite E. reflexivity.
    + intros Hfloor.
      pose proof (rsi_value_saturates g 1 ltac:(lra) ltac:(lra)) as H.
      assert (E : 100 - 100 / (1 + 1) == 50) by reflexivity. lra.
    + intros Hbig.
      assert (Hk : 100 * floor_1e_9 <= g).
      { assert (E : 100 * floor_1e_9 == 1 # 10000000) by reflexivity. lra. }
      pose proof (rsi_value_saturates g 100 ltac:(lra) Hk) as H.
      assert (E : 99 <= 100 - 100 / (1 + 100)).
      { apply Qle_bool_imp_le. reflexivity. }
      lra.
Qed.

Lemma rsi_floor_and_range_witness :
  nan_or (fun q => 0 <= q /\ q <= 100) (Fin 0) /\
  (exists q, nth_error (rsi (fins flat15) 14) 14 = Some (Fin q) /\ q == 0) /\
  (exists q, nth_error (rsi (fins rising16) 14) 14 = Some (Fin q) /\ 99 <= q).
Proof.
  split; [|split].
  - destruct (rsi_floor_and_range flat15 14 14 ltac:(lia)) as (_ & Hr & _).
    apply Hr. vm_compute. reflexivity.
  - destruct (rsi_floor_and_range flat15 14 14 ltac:(lia)) as (_ & _ & Hz).
    destruct (Hz 0 0) as (_ & q & Hq & Hv & _);
      [vm_compute; reflexivity|vm_compute; reflexivity|reflexivity|].
    exists q. split; [exact Hq|]. apply Hv. reflexivity.
  - destruct (rsi_floor_and_range rising16 14 14 ltac:(lia)) as (_ & _ & Hz).
    destruct (Hz 1 0) as (_ & q & Hq & _ & _ & Hv);
      [vm_compute; reflexivity|vm_compute; reflexivity|reflexivity|].
    exists q. split; [exact Hq|]. apply Hv.
    apply Qle_bool_imp_le. reflexivity.
Defined.

(** C4 (as stated) fails on a flat series: the average loss over fifteen
    equal closes is exactly zero, and so is the average gain, and the RSI
    there is 0, not a value near 100. *)
Lemma rsi_flat_series_is_zero :
  nth_error (rsi_avg_loss_raw (fins flat15) 14) 14 = Some (Fin 0) /\
  nth_error (rsi_avg_gain (fins flat15) 14) 14 = Some (Fin 0) /\
  nth_error (rsi (fins flat15) 14) 14 = Some (Fin 0).
Proof. vm_compute. repeat split. Qed.

(** ** Positional access *)

Lemma iloc_short {A} (rows : list A) (i : Z) :
  (i < 0)%Z -> (Z.of_nat (length rows) < - i)%Z ->
  iloc rows i = Raise index_error.
Proof.
  intros Hi H. unfold iloc.
  destruct (Z.ltb_spec i 0) as [_|Hc]; [|lia].
  destruct (Z.ltb_spec (Z.of_nat (length rows) + i) 0) as [_|Hc];
    [reflexivity|lia].
Qed.

Lemma iloc_from_end {A} (rows tail : list A) (i : Z) x :
  (i < 0)%Z -> Z.of_nat (length tail) = (- i)%Z -> nth_error tail 0 = Some x ->
  iloc (rows ++ tail) i = Ok x.
Proof.
  intros Hi Hlen Hx. unfold iloc. rewrite length_app.
  destruct (Z.ltb_spec i 0) as [_|Hc]; [|lia].
  replace (Z.of_nat (length rows + length tail) + i)%Z
    with (Z.of_nat (length rows)) by lia.
  destruct (Z.ltb_spec (Z.of_nat (length rows)) 0) as [Hc|_]; [lia|].
  destruct (Z.leb_spec (Z.of_nat (length rows + length tail))
                       (Z.of_nat (length rows))) as [Hc|_]; [lia|]. simpl.
  rewrite Nat2Z.id, nth_error_app2, Nat.sub_diag, Hx by lia. reflexivity.
Qed.

Lemma last_two {A} (rows : list A) :
  (2 <= length rows)%nat -> exists pre x y, rows = pre ++ [x; y].
Proof.
  intros H. exists (firstn (length rows - 2) rows).
  pose proof (firstn_skipn (length rows - 2) rows) as E.
  assert (Hl : length (skipn (length rows - 2) rows) = 2%nat)
    by (rewrite length_skipn; lia).
  destruct (skipn (length rows - 2) rows) as [|x [|y [|z t]]]; try discriminate.
  exists x, y. symmetry. exact E.
Qed.

(** ** What [analyze_pair] returns *)

Lemma analyze_pair_ok fetch base quote df pre prev latest :
  fetch base quote = Ok df ->
  dropna (with_indicators df) = pre ++ [prev; latest] ->
  analyze_pair fetch base quote = Ok (snapshot_of base quote latest prev).
Proof.
  intros Hf Hrows. unfold analyze_pair. rewrite Hf. simpl. rewrite Hrows.
  replace (pre ++ [prev; latest]) with ((pre ++ [prev]) ++ [latest])
    by (rewrite <- app_assoc; reflexivity).
  rewrite (iloc_from_end (pre ++ [prev]) [latest] (-1) latest) by (reflexivity || lia).
  simpl. rewrite <- app_assoc. simpl.
  rewrite (iloc_from_end pre [prev; latest] (-2) prev) by (reflexivity || lia).
  reflexivity.
Qed.

Lemma analyze_pair_index_error fetch base quote df :
  fetch base quote = Ok df ->
  (length (dropna (with_indicators df)) < 2)%nat ->
  analyze_pair fetch base quote = Raise index_error.
Proof.
  intros Hf Hlen. unfold analyze_pair. rewrite Hf. simpl.
  remember (dropna (with_indicators df)) as rows.
  destruct rows as [|r [|r' rows]]; simpl in Hlen; try lia.
  - reflexivity.
  - reflexivity.
Qed.

(** ** Rows that survive [dropna] *)

Lemma filter_none_of_prefix {A} (f : A -> bool) : forall k l,
  (forall j r, (j < k)%nat -> nth_error l j = Some r -> f r = false) ->
  filter f (firstn k l) = [].
Proof.
  induction k as [|k IH]; intros [|a l] H; simpl; try reflexivity.
  rewrite (H 0%nat a) by (reflexivity || lia).
  apply IH. intros j r Hj Hr. apply (H (S j) r); [lia|exact Hr].
Qed.

Lemma filter_length_le {A} (f : A -> bool) l :
  (length (filter f l) <= length l)%nat.
Proof.
  induction l as [|a l IH]; simpl; [lia|]. destruct (f a); simpl; lia.
Qed.

Lemma dropna_length df :
  (length (dropna (with_indicators df)) <= length df - 199)%nat.
Proof.
  unfold dropna.
  rewrite <- (firstn_skipn 199 (with_indicators df)) at 1.
  rewrite filter_app, filter_none_of_prefix.
  - cbn [app]. etransitivity; [apply filter_length_le|].
    rewrite length_skipn, with_indicators_length. lia.
  - intros j r Hj Hr.
    destruct (with_indicators_columns df) as (_ & _ & H200 & _).
    pose proof (sma_of_row 200 SMA200 df j r ltac:(lia) H200 Hr) as S.
    destruct (Nat.leb_spec 200 (j + 1)); [lia|].
    unfold row_has_nan. rewrite S. simpl. rewrite orb_true_r. reflexivity.
Qed.

(** Every row of the frame has both averages NaN or finite. *)
Lemma sma_nan_or_fin df r :
  In r (with_indicators df) ->
  nan_or (fun _ => True) (SMA50 r) /\ nan_or (fun _ => True) (SMA200 r).
Proof.
  intros Hin. apply In_nth_error in Hin. destruct Hin as (i & Hr).
  destruct (with_indicators_columns df) as (_ & H50 & H200 & _).
  pose proof (sma_of_row 50 SMA50 df i r ltac:(lia) H50 Hr) as S50.
  pose proof (sma_of_row 200 SMA200 df i r ltac:(lia) H200 Hr) as S200.
  split.
  - destruct (50 <=? i + 1)%nat; [|left; exact S50].
    destruct S50 as (m & -> & _). right. eauto.
  - destruct (200 <=? i + 1)%nat; [|left; exact S200].
    destruct S200 as (m & -> & _). right. eauto.
Qed.

Lemma dropna_sma_fin df r :
  In r (dropna (with_indicators df)) ->
  exists a b, SMA50 r = Fin a /\ SMA200 r = Fin b.
Proof.
  intros Hin. unfold dropna in Hin. apply filter_In in Hin.
  destruct Hin as (Hin & Hnan).
  destruct (sma_nan_or_fin df r Hin) as ([E50|(a & E50 & _)] & [E200|(b & E200 & _)]);
    unfold row_has_nan in Hnan; rewrite ?E50, ?E200 in Hnan; simpl in Hnan;
    rewrite ?orb_true_r in Hnan; try discriminate.
  eauto.
Qed.

(** ** Where the columns are defined *)

Lemma ewm_step_seen alpha cur st :
  0 <= alpha -> alpha <= 1 ->
  nan_or (fun q => 0 <= q) cur -> ewm_seen st ->
  ewm_seen (ewm_step alpha cur st) /\
  ewm_nobs (ewm_step alpha cur st) = (ewm_nobs st + count_obs [cur])%nat.
Proof.
  intros Ha0 Ha1 Hcur (Hinv & Hseen).
  pose proof (ewm_step_inv alpha cur st Ha0 Ha1 Hcur Hinv) as Hinv'.
  assert (Hn : ewm_nobs (ewm_step alpha cur st)
               = (ewm_nobs st + count_obs [cur])%nat).
  { unfold ewm_step, count_obs. simpl.
    destruct (isnan (ewm_weighted st)), (isnan cur); simpl; lia. }
  split; [|exact Hn]. split; [exact Hinv'|].
  rewrite Hn. destruct Hcur as [->|(c & -> & Hc)].
  - (* nothing observed at this position: the mean is carried over *)
    unfold count_obs. simpl. rewrite Nat.add_0_r. intros Hpos.
    destruct (Hseen Hpos) as (w & Ew). exists w.
    unfold ewm_step. rewrite Ew. reflexivity.
  - intros _. destruct Hinv as ([Ew|(w & Ew & Hw)] & How);
      unfold ewm_step; rewrite Ew; simpl.
    + exists c. reflexivity.
    + destruct (Qeq_bool w c); simpl; [exists w; reflexivity|].
      assert (0 <= ewm_old_wt st * (1 - alpha)) by (apply Qmult_le_0_compat; lra).
      rewrite Qis_zero_false by lra. eexists. reflexivity.
Qed.

Lemma count_obs_cons v s : count_obs (v :: s) = (count_obs [v] + count_obs s)%nat.
Proof. unfold count_obs. simpl. destruct (isnan v); reflexivity. Qed.

Lemma ewm_mean_from_defined alpha minp :
  0 <= alpha -> alpha <= 1 -> (1 <= minp)%nat ->
  forall s st i v,
    Forall (nan_or (fun q => 0 <= q)) s -> ewm_seen st ->
    nth_error (ewm_mean_from alpha minp st s) i = Some v ->
    if (minp <=? ewm_nobs st + count_obs (firstn (i + 1) s))%nat
    then is_fin v else v = NaN.
Proof.
  intros Ha0 Ha1 Hm. induction s as [|cur s IH]; intros st i v Hs Hst Hv.
  - destruct i; discriminate.
  - inversion Hs as [|? ? Hcur Hs']; subst.
    destruct (ewm_step_seen alpha cur st Ha0 Ha1 Hcur Hst) as (Hst' & Hn).
    destruct i as [|i]; simpl in Hv.
    + injection Hv as <-. simpl. rewrite <- Hn.
      destruct (Nat.leb_spec minp (ewm_nobs (ewm_step alpha cur st)));
        [|reflexivity].
      apply Hst'. lia.
    + specialize (IH _ i v Hs' Hst' Hv). rewrite Hn in IH.
      change (firstn (S i + 1) (cur :: s)) with (cur :: firstn (i + 1) s).
      rewrite count_obs_cons, Nat.add_assoc. exact IH.
Qed.

Lemma diff_from_fin : forall l x, Forall is_fin (diff_from (Fin x) (fins l)).
Proof.
  induction l as [|y l IH]; intros x; simpl; constructor.
  - eexists. reflexivity.
  - apply IH.
Qed.

Lemma count_obs_fin s : Forall is_fin s -> count_obs s = length s.
Proof.
  unfold count_obs. intros H. rewrite filter_all; [reflexivity|].
  intros v Hv. rewrite Forall_forall in H. destruct (H v Hv) as (q & ->).
  reflexivity.
Qed.

Lemma Forall_firstn_of {A} (P : A -> Prop) k (l : list A) :
  Forall P l -> Forall P (firstn k l).
Proof.
  intros H. revert k. induction H as [|x l Hx _ IH]; intros [|k]; simpl;
    constructor; auto.
Qed.

(** The gains and the losses of a finite Series: NaN at the first position,
    a finite value at every other. *)
Lemma gain_shape x l :
  exists g, clip_lower (Fin 0) (diff (fins (x :: l))) = NaN :: g /\
            Forall is_fin g /\ length g = length l.
Proof.
  exists (clip_lower (Fin 0) (diff_from (Fin x) (fins l))).
  split; [reflexivity|]. split.
  - unfold clip_lower. apply Forall_map.
    eapply Forall_impl; [|apply diff_from_fin].
    intros v (q & ->). destruct (flt (Fin q) (Fin 0)); eexists; reflexivity.
  - unfold clip_lower, fins. rewrite length_map, diff_from_length, length_map.
    reflexivity.
Qed.

Lemma loss_shape x l :
  exists g, neg (clip_upper (Fin 0) (diff (fins (x :: l)))) = NaN :: g /\
            Forall is_fin g /\ length g = length l.
Proof.
  exists (neg (clip_upper (Fin 0) (diff_from (Fin x) (fins l)))).
  split; [reflexivity|]. split.
  - unfold neg, clip_upper. rewrite map_map. apply Forall_map.
    eapply Forall_impl; [|apply diff_from_fin].
    intros v (q & ->). destruct (flt (Fin 0) (Fin q)); eexists; reflexivity.
  - unfold neg, clip_upper, fins.
    rewrite !length_map, diff_from_length, length_map. reflexivity.
Qed.

Lemma ewm_seen_init : ewm_seen (EwmState NaN 1 0).
Proof. split; [apply ewm_inv_init|]. simpl. lia. Qed.

(** [ewm(min_periods=p)] over such a Series is defined from position [p]. *)
Lemma ewm_mean_after_nan period g i v :
  (1 <= period)%nat ->
  Forall (nan_or (fun q => 0 <= q)) (NaN :: g) -> Forall is_fin g ->
  nth_error (ewm_mean (1 / inject_Z (Z.of_nat period)) period (NaN :: g)) i
    = Some v ->
  if (period <=? i)%nat then is_fin v else v = NaN.
Proof.
  intros Hp Hnn Hfin Hv. destruct (alpha_bounds period Hp) as (Ha0 & Ha1).
  assert (Hi : (i < length (ewm_mean (1 / inject_Z (Z.of_nat period)) period
                                    (NaN :: g)))%nat)
    by (apply nth_error_Some; congruence).
  unfold ewm_mean in Hi, Hv. rewrite ewm_mean_from_length in Hi.
  pose proof (ewm_mean_from_defined _ period Ha0 Ha1 Hp _ _ i v Hnn ewm_seen_init Hv)
    as H.
  replace (i + 1)%nat with (S i) in H by lia.
  rewrite firstn_cons, count_obs_cons in H.
  rewrite (count_obs_fin (firstn i g)) in H
    by (apply Forall_firstn_of; exact Hfin).
  rewrite length_firstn in H. simpl in Hi, H.
  replace (Nat.min i (length g)) with i in H by lia. exact H.
Qed.

Lemma rsi_defined closes period i v :
  (1 <= period)%nat ->
  nth_error (rsi (fins closes) period) i = Some v ->
  if (period <=? i)%nat then is_fin v else v = NaN.
Proof.
  intros Hp Hv. unfold rsi in Hv.
  apply zip_with_nth_inv in Hv. destruct Hv as (g & l & Hg & Hl & ->).
  pose proof (Forall_nth _ _ _ _ (rsi_avg_gain_nonneg closes period Hp) Hg) as Hg0.
  pose proof (Forall_nth _ _ _ _ (rsi_avg_loss_pos closes period Hp) Hl) as Hl0.
  destruct closes as [|x cl]; [destruct i; discriminate|].
  assert (Hgd : if (period <=? i)%nat then is_fin g else g = NaN).
  { destruct (gain_shape x cl) as (gs & Egs & Hfin & _).
    pose proof (gain_nonneg (x :: cl)) as Hnn.
    unfold rsi_avg_gain in Hg. rewrite Egs in Hg, Hnn.
    eapply ewm_mean_after_nan; eassumption. }
  assert (Hld : if (period <=? i)%nat then is_fin l else True).
  { destruct (period <=? i)%nat eqn:E; [|exact I].
    destruct (loss_shape x cl) as (ls & Els & Hfin & _).
    pose proof (loss_nonneg (x :: cl)) as Hnn.
    unfold rsi_avg_loss, replace in Hl. rewrite nth_error_map in Hl.
    destruct (nth_error (rsi_avg_loss_raw (fins (x :: cl)) period) i) as [r|] eqn:Er;
      [|discriminate].
    unfold rsi_avg_loss_raw in Er. rewrite Els in Er, Hnn.
    pose proof (ewm_mean_after_nan period ls i r Hp Hnn Hfin Er) as Hr.
    rewrite E in Hr. destruct Hr as (q & ->). simpl in Hl.
    injection Hl as <-. destruct (Qeq_bool q 0); eexists; reflexivity. }
  destruct (period <=? i)%nat.
  - destruct Hgd as (a & ->), Hld as (b & ->).
    destruct Hg0 as [E|(a' & E & Ha)]; [discriminate|]. injection E as <-.
    destruct Hl0 as [E|(b' & E & Hb)]; [discriminate|]. injection E as <-.
    rewrite rsi_of_Fin by assumption. eexists. reflexivity.
  - rewrite Hgd. destruct l; reflexivity.
Qed.

Lemma shift_nth k s i :
  (k <= i)%nat -> (i < length s)%nat ->
  nth_error (shift k s) i = nth_error s (i - k).
Proof.
  intros Hk Hi. unfold shift. rewrite nth_error_firstn.
  destruct (Nat.ltb_spec i (length s)); [|lia].
  rewrite nth_error_app2; rewrite repeat_length; [reflexivity|lia].
Qed.

Lemma mom5_defined df i r :
  positive_closes df -> (5 <= i)%nat ->
  nth_error (with_indicators df) i = Some r -> is_fin (MOM5 r).
Proof.
  intros Hpos Hi Hr.
  destruct (with_indicators_columns df) as (_ & _ & _ & _ & Hm).
  pose proof (column_nth MOM5 _ _ i r Hm Hr) as Hnth.
  rewrite nth_error_map in Hnth.
  assert (Hlen : (i < length df)%nat).
  { rewrite <- with_indicators_length. apply nth_error_Some. congruence. }
  assert (Hclose : forall j, (j < length df)%nat ->
            exists c, nth_error (close_column df) j = Some (Fin c) /\ 0 < c).
  { intros j Hj. unfold close_column. rewrite nth_error_map.
    destruct (nth_error df j) as [b|] eqn:Eb; [|apply nth_error_None in Eb; lia].
    exists (bar_close b). split; [reflexivity|].
    unfold positive_closes in Hpos. rewrite Forall_forall in Hpos.
    apply Hpos. eapply nth_error_In. exact Eb. }
  destruct (Hclose i Hlen) as (c & Ec & _).
  destruct (Hclose (i - 5)%nat ltac:(lia)) as (c5 & Ec5 & Hc5).
  unfold pct_change in Hnth.
  erewrite zip_with_nth in Hnth;
    [|exact Ec|rewrite shift_nth; [exact Ec5|lia|]].
  2:{ unfold close_column. rewrite length_map. exact Hlen. }
  simpl in Hnth. rewrite (Qis_zero_false c5) in Hnth by lra.
  simpl in Hnth. injection Hnth as <-. eexists. reflexivity.
Qed.

Lemma row_fully_defined df i r :
  positive_closes df -> (199 <= i)%nat ->
  nth_error (with_indicators df) i = Some r -> row_has_nan r = false.
Proof.
  intros Hpos Hi Hr.
  destruct (with_indicators_columns df) as (_ & H50 & H200 & Hrsi & _).
  pose proof (sma_of_row 50 SMA50 df i r ltac:(lia) H50 Hr) as S50.
  pose proof (sma_of_row 200 SMA200 df i r ltac:(lia) H200 Hr) as S200.
  destruct (Nat.leb_spec 50 (i + 1)); [|lia].
  destruct (Nat.leb_spec 200 (i + 1)); [|lia].
  destruct S50 as (a & Ea & _), S200 as (b & Eb & _).
  pose proof (column_nth RSI14 _ _ i r Hrsi Hr) as Hnth.
  rewrite close_column_fins in Hnth.
  pose proof (rsi_defined _ 14 i _ ltac:(lia) Hnth) as Hd.
  destruct (Nat.leb_spec 14 i); [|lia]. destruct Hd as (c & Ec).
  destruct (mom5_defined df i r Hpos ltac:(lia) Hr) as (d & Ed).
  unfold row_has_nan. rewrite Ea, Eb, Ec, Ed. reflexivity.
Qed.

(** With positive closes the fully-defined rows are the rows from bar 199
    on: the last two of them are the last two bars of the series. *)
Lemma dropna_positive_closes df :
  positive_closes df ->
  dropna (with_indicators df) = skipn 199 (with_indicators df).
Proof.
  intros Hpos. unfold dropna.
  rewrite <- (firstn_skipn 199 (with_indicators df)) at 1.
  rewrite filter_app, filter_none_of_prefix.
  - cbn [app]. apply filter_all. intros r Hin.
    apply In_nth_error in Hin. destruct Hin as (j & Hj).
    rewrite nth_error_skipn in Hj.
    rewrite (row_fully_defined df (199 + j) r Hpos ltac:(lia) Hj). reflexivity.
  - intros j r Hj Hr.
    destruct (with_indicators_columns df) as (_ & _ & H200 & _).
    pose proof (sma_of_row 200 SMA200 df j r ltac:(lia) H200 Hr) as S.
    destruct (Nat.leb_spec 200 (j + 1)); [lia|].
    unfold row_has_nan. rewrite S. simpl. rewrite orb_true_r. reflexivity.
Qed.

Lemma dropna_positive_length df :
  positive_closes df ->
  length (dropna (with_indicators df)) = (length df - 199)%nat.
Proof.
  intros Hpos. rewrite dropna_positive_closes by assumption.
  rewrite length_skipn, with_indicators_length. reflexivity.
Qed.

Lemma last_two_rows_are_last_two_bars df :
  positive_closes df -> (201 <= length df)%nat ->
  exists pre prev latest,
    dropna (with_indicators df) = pre ++ [prev; latest] /\
    nth_error (with_indicators df) (length df - 2) = Some prev /\
    nth_error (with_indicators df) (length df - 1) = Some latest.
Proof.
  intros Hpos Hlen.
  pose proof (dropna_positive_length df Hpos) as Hl.
  destruct (last_two (dropna (with_indicators df)) ltac:(lia))
    as (pre & prev & latest & E).
  exists pre, prev, latest. split; [exact E|].
  rewrite E, length_app in Hl. simpl in Hl.
  rewrite (dropna_positive_closes df Hpos) in E.
  split.
  - replace (length df - 2)%nat with (199 + length pre)%nat by lia.
    rewrite <- nth_error_skipn, E, nth_error_app2, Nat.sub_diag by lia.
    reflexivity.
  - replace (length df - 1)%nat with (199 + (length pre + 1))%nat by lia.
    rewrite <- nth_error_skipn, E, nth_error_app2 by lia.
    replace (length pre + 1 - length pre)%nat with 1%nat by lia. reflexivity.
Qed.

(** C1 (as amended).  For every fetched series with fewer than 201 bars, and
    more generally whenever fewer than two fully-defined rows remain after
    [dropna], [analyze_pair] fails by raising the [IndexError] of the
    positional access to the last two rows (the program has no
    insufficient-data condition of its own); with two or more fully-defined
    rows it returns a snapshot. *)
Theorem analyze_pair_short_series_raises_index_error
    (fetch : QuoteProvider) (base quote : string) (df : DataFrame) :
  fetch base quote = Ok df ->
  ((length df < 201)%nat ->
     analyze_pair fetch base quote = Raise index_error) /\
  ((length (dropna (with_indicators df)) < 2)%nat ->
     analyze_pair fetch base quote = Raise index_error) /\
  ((2 <= length (dropna (with_indicators df)))%nat ->
     exists snap, analyze_pair fetch base quote = Ok snap).
Proof.
  intros Hf.
  split; [|split].
  - intros Hlen. apply (analyze_pair_index_error fetch base quote df Hf).
    pose proof (dropna_length df). lia.
  - apply analyze_pair_index_error. exact Hf.
  - intros Hlen. destruct (last_two _ Hlen) as (pre & prev & latest & Hrows).
    eexists. eapply analyze_pair_ok; eassumption.
Qed.

Lemma analyze_pair_short_series_witness :
  analyze_pair (provider_of short_frame) "EUR" "USD" = Raise index_error /\
  exists snap, analyze_pair (provider_of cross_up_frame) "EUR" "USD" = Ok snap.
Proof.
  split.
  - apply (analyze_pair_short_series_raises_index_error
             (provider_of short_frame) "EUR" "USD" short_frame).
    + reflexivity.
    + vm_compute. lia.
  - apply (analyze_pair_short_series_raises_index_error
             (provider_of cross_up_frame) "EUR" "USD" cross_up_frame).
    + reflexivity.
    + vm_compute. lia.
Defined.

(** C1 (as stated) fails: on a fetched series of ten closes the analysis
    does not end in an insufficient-data condition, it raises the
    [IndexError] of [df.iloc[-1]]; and on a series of 201 closes, which
    leaves two fully-defined rows, it does not fail at all. *)
Lemma analyze_pair_short_series_index_fault :
  analyze_pair (provider_of short_frame) "EUR" "USD"
    = Raise (Exn IndexError "single positional indexer is out-of-bounds") /\
  length (dropna (with_indicators cross_up_frame)) = 2%nat /\
  exists snap, analyze_pair (provider_of cross_up_frame) "EUR" "USD" = Ok snap.
Proof.
  split; [vm_compute; reflexivity|].
  split; [vm_compute; reflexivity|].
  eexists. vm_compute. reflexivity.
Qed.

(** ** Cross signals *)

Lemma fle_Fin a b : fle (Fin a) (Fin b) = true <-> a <= b.
Proof.
  unfold fle. simpl. destruct (Qlt_le_dec a b) as [H|H]; simpl.
  - split; intros _; [lra|reflexivity].
  - split; intros H'.
    + apply Qeq_bool_eq in H'. lra.
    + apply Qeq_eq_bool. lra.
Qed.

Lemma fgt_Fin a b : fgt (Fin a) (Fin b) = true <-> b < a.
Proof. unfold fgt. apply flt_Fin. Qed.

Lemma fge_Fin a b : fge (Fin a) (Fin b) = true <-> b <= a.
Proof. unfold fge. apply fle_Fin. Qed.

Lemma cross_signals_fin latest prev s50 s200 p50 p200 :
  SMA50 latest = Fin s50 -> SMA200 latest = Fin s200 ->
  SMA50 prev = Fin p50 -> SMA200 prev = Fin p200 ->
  (In golden_cross (cross_signals latest prev) <-> p50 <= p200 /\ s200 < s50) /\
  (In death_cross (cross_signals latest prev) <-> p200 <= p50 /\ s50 < s200) /\
  (cross_signals latest prev = [] \/
   cross_signals latest prev = [golden_cross] \/
   cross_signals latest prev = [death_cross]) /\
  (s50 == s200 -> cross_signals latest prev = []).
Proof.
  intros E1 E2 E3 E4. unfold cross_signals. rewrite E1, E2, E3, E4.
  pose proof (fgt_Fin s50 s200) as G1. pose proof (fle_Fin p50 p200) as G2.
  pose proof (flt_Fin s50 s200) as D1. pose proof (fge_Fin p50 p200) as D2.
  unfold golden_cross, death_cross.
  destruct (fgt (Fin s50) (Fin s200)), (fle (Fin p50) (Fin p200)),
    (flt (Fin s50) (Fin s200)), (fge (Fin p50) (Fin p200)); simpl;
    intuition (try congruence; try lra).
Qed.

Lemma last_two_in {A} (pre : list A) x y :
  In x (pre ++ [x; y]) /\ In y (pre ++ [x; y]).
Proof. split; apply in_or_app; right; simpl; auto. Qed.

(** The two rows [analyze_pair] compares, their averages, and the snapshot. *)
Lemma analyze_pair_last_two fetch base quote df :
  fetch base quote = Ok df ->
  (2 <= length (dropna (with_indicators df)))%nat ->
  exists pre prev latest s50 s200 p50 p200,
    dropna (with_indicators df) = pre ++ [prev; latest] /\
    SMA50 latest = Fin s50 /\ SMA200 latest = Fin s200 /\
    SMA50 prev = Fin p50 /\ SMA200 prev = Fin p200 /\
    analyze_pair fetch base quote = Ok (snapshot_of base quote latest prev).
Proof.
  intros Hf Hlen. destruct (last_two _ Hlen) as (pre & prev & latest & Hrows).
  destruct (last_two_in pre prev latest) as (Hp & Hl). rewrite <- Hrows in Hp, Hl.
  destruct (dropna_sma_fin df prev Hp) as (p50 & p200 & Ep50 & Ep200).
  destruct (dropna_sma_fin df latest Hl) as (s50 & s200 & Es50 & Es200).
  exists pre, prev, latest, s50, s200, p50, p200.
  repeat split; try assumption.
  eapply analyze_pair_ok; eassumption.
Qed.

(** C2.  For every fetched series that leaves at least two fully-defined
    rows, with [latest] (bar t) and [prev] (bar t-1) the last two of them:
    [analyze_pair] emits the golden-cross signal iff
    SMA50[t-1] <= SMA200[t-1] and SMA50[t] > SMA200[t], it emits the
    death-cross signal iff SMA50[t-1] >= SMA200[t-1] and
    SMA50[t] < SMA200[t], and it never emits both: the signals of the
    snapshot are the golden cross alone, the death cross alone, or none. *)
Theorem golden_and_death_cross_conditions
    (fetch : QuoteProvider) (base quote : string) (df : DataFrame) :
  fetch base quote = Ok df ->
  (2 <= length (dropna (with_indicators df)))%nat ->
  exists pre prev latest s50 s200 p50 p200 snap,
    dropna (with_indicators df) = pre ++ [prev; latest] /\
    SMA50 latest = Fin s50 /\ SMA200 latest = Fin s200 /\
    SMA50 prev = Fin p50 /\ SMA200 prev = Fin p200 /\
    analyze_pair fetch base quote = Ok snap /\
    (signals snap = golden_cross <-> p50 <= p200 /\ s200 < s50) /\
    (signals snap = death_cross <-> p200 <= p50 /\ s50 < s200) /\
    (signals snap = golden_cross \/ signals snap = death_cross \/
     signals snap = "—") /\
    ~ (signals snap = golden_cross /\ signals snap = death_cross).
Proof.
  intros Hf Hlen.
  destruct (analyze_pair_last_two fetch base quote df Hf Hlen)
    as (pre & prev & latest & s50 & s200 & p50 & p200
        & Hrows & E1 & E2 & E3 & E4 & Hsnap).
  exists pre, prev, latest, s50, s200, p50, p200, (snapshot_of base quote latest prev).
  destruct (cross_signals_fin latest prev s50 s200 p50 p200 E1 E2 E3 E4)
    as (HG & HD & Hcases & _).
  repeat (split; [assumption|]).
  unfold snapshot_of; cbn [signals].
  destruct Hcases as [E|[E|E]]; rewrite E in *;
    unfold golden_cross, death_cross in *; simpl in *;
    intuition (try congruence; try lra).
Qed.

Lemma golden_and_death_cross_witness :
  exists pre prev latest s50 s200 p50 p200 snap,
    dropna (with_indicators cross_up_frame) = pre ++ [prev; latest] /\
    SMA50 latest = Fin s50 /\ SMA200 latest = Fin s200 /\
    SMA50 prev = Fin p50 /\ SMA200 prev = Fin p200 /\
    analyze_pair (provider_of cross_up_frame) "EUR" "USD" = Ok snap /\
    (signals snap = golden_cross <-> p50 <= p200 /\ s200 < s50) /\
    (signals snap = death_cross <-> p200 <= p50 /\ s50 < s200) /\
    (signals snap = golden_cross \/ signals snap = death_cross \/
     signals snap = "—") /\
    ~ (signals snap = golden_cross /\ signals snap = death_cross).
Proof.
  apply (golden_and_death_cross_conditions
           (provider_of cross_up_frame) "EUR" "USD" cross_up_frame).
  - reflexivity.
  - vm_compute. lia.
Defined.

(** C3 (as amended).  For every fetched series that leaves at least two
    fully-defined rows, the golden-cross signal fires exactly when SMA50 is
    currently strictly greater than SMA200 and was less than or equal to it
    on the immediately preceding bar, and the death-cross signal fires on
    the symmetric opposite transition (currently strictly less, previously
    greater or equal); when the two averages are exactly equal on the latest
    bar neither signal fires. *)
Theorem cross_needs_strict_latest
    (fetch : QuoteProvider) (base quote : string) (df : DataFrame) :
  fetch base quote = Ok df ->
  (2 <= length (dropna (with_indicators df)))%nat ->
  exists pre prev latest s50 s200 p50 p200,
    dropna (with_indicators df) = pre ++ [prev; latest] /\
    SMA50 latest = Fin s50 /\ SMA200 latest = Fin s200 /\
    SMA50 prev = Fin p50 /\ SMA200 prev = Fin p200 /\
    (In golden_cross (cross_signals latest prev)
       <-> s200 < s50 /\ p50 <= p200) /\
    (In death_cross (cross_signals latest prev)
       <-> s50 < s200 /\ p200 <= p50) /\
    (s50 == s200 ->
       cross_signals latest prev = [] /\
       exists snap, analyze_pair fetch base quote = Ok snap /\
                    signals snap = "—").
Proof.
  intros Hf Hlen.
  destruct (analyze_pair_last_two fetch base quote df Hf Hlen)
    as (pre & prev & latest & s50 & s200 & p50 & p200
        & Hrows & E1 & E2 & E3 & E4 & Hsnap).
  exists pre, prev, latest, s50, s200, p50, p200.
  destruct (cross_signals_fin latest prev s50 s200 p50 p200 E1 E2 E3 E4)
    as (HG & HD & _ & Heq).
  repeat (split; [assumption|]).
  split; [tauto|]. split; [tauto|].
  intros E. split; [auto|].
  eexists. split; [exact Hsnap|].
  unfold snapshot_of; cbn [signals]. rewrite (Heq E). reflexivity.
Qed.

Lemma cross_needs_strict_latest_witness :
  exists pre prev latest s50 s200 p50 p200,
    dropna (with_indicators touch_frame) = pre ++ [prev; latest] /\
    SMA50 latest = Fin s50 /\ SMA200 latest = Fin s200 /\
    SMA50 prev = Fin p50 /\ SMA200 prev = Fin p200 /\
    (In golden_cross (cross_signals latest prev)
       <-> s200 < s50 /\ p50 <= p200) /\
    (In death_cross (cross_signals latest prev)
       <-> s50 < s200 /\ p200 <= p50) /\
    (s50 == s200 ->
       cross_signals latest prev = [] /\
       exists snap, analyze_pair (provider_of touch_frame) "EUR" "USD" = Ok snap /\
                    signals snap = "—").
Proof.
  apply (cross_needs_strict_latest
           (provider_of touch_frame) "EUR" "USD" touch_frame).
  - reflexivity.
  - vm_compute. lia.
Defined.

(** C3 (as stated) fails: in [touch_frame] two fully-defined rows remain; on
    the earlier one SMA50 is strictly below SMA200, on the latest one the
    two are exactly equal, and [analyze_pair] reports no signal. *)
Lemma no_golden_cross_on_equal_averages :
  map (fun r => (flt (SMA50 r) (SMA200 r), feqb (SMA50 r) (SMA200 r),
                 fge (SMA50 r) (SMA200 r)))
      (dropna (with_indicators touch_frame))
    = [(true, false, false); (false, true, true)] /\
  match analyze_pair (provider_of touch_frame) "EUR" "USD" with
  | Ok snap => signals snap = "—"
  | Raise _ => False
  end.
Proof. split; vm_compute; reflexivity. Qed.

(** ** The job queue *)

Lemma remove_all_jobs : forall js q,
  jobs (remove_all js q)
    = filter (fun k => negb (existsb (fun j => (job_id k =? job_id j)%nat) js))
             (jobs q) /\
  next_id (remove_all js q) = next_id q.
Proof.
  induction js as [|j js IH]; intros q.
  - simpl. split; [|reflexivity]. symmetry. apply filter_all. reflexivity.
  - unfold remove_all in *. simpl. destruct (IH (schedule_removal j q)) as (Hj & Hn).
    rewrite Hj, Hn. simpl. split; [|reflexivity].
    rewrite filter_twice. apply filter_ext. intros k.
    rewrite negb_orb. reflexivity.
Qed.

Lemma NoDup_map_inj {A B} (f : A -> B) l x y :
  NoDup (map f l) -> In x l -> In y l -> f x = f y -> x = y.
Proof.
  induction l as [|a l IH]; simpl; intros Hnd Hx Hy E; [contradiction|].
  inversion Hnd as [|? ? Hnotin Hnd']; subst.
  destruct Hx as [->|Hx], Hy as [->|Hy]; auto.
  - exfalso. apply Hnotin. rewrite E. apply in_map. exact Hy.
  - exfalso. apply Hnotin. rewrite <- E. apply in_map. exact Hx.
Qed.

Lemma remove_all_by_name name q :
  NoDup (map job_id (jobs q)) ->
  jobs (remove_all (get_jobs_by_name name q) q)
    = filter (fun k => negb (String.eqb (job_name k) name)) (jobs q).
Proof.
  intros Hnd. destruct (remove_all_jobs (get_jobs_by_name name q) q) as (-> & _).
  apply filter_ext_in. intros k Hk. f_equal.
  destruct (String.eqb (job_name k) name) eqn:E.
  - apply existsb_exists. exists k. split; [|apply Nat.eqb_refl].
    unfold get_jobs_by_name. apply filter_In. auto.
  - destruct (existsb _ _) eqn:Ex; [|reflexivity].
    apply existsb_exists in Ex. destruct Ex as (j & Hj & Hid).
    unfold get_jobs_by_name in Hj. apply filter_In in Hj. destruct Hj as (Hj & Hname).
    apply Nat.eqb_eq in Hid.
    assert (k = j) by (eapply NoDup_map_inj; eassumption).
    subst. congruence.
Qed.

Lemma py_str_inj a b : py_str a = py_str b -> a = b.
Proof.
  unfold py_str. intros E.
  assert (H : forall z, NilZero.int_of_string (NilZero.string_of_int (Z.to_int z))
                        = Some (Z.to_int z)).
  { intros z. apply NilZero.isi; destruct z; simpl; try discriminate;
      intros [= H]; exact (DecimalPos.Unsigned.to_uint_nonnil _ H). }
  apply DecimalZ.to_int_inj.
  pose proof (H a) as Ha. rewrite E, H in Ha. congruence.
Qed.

Lemma digest_name_inj a b : digest_name a = digest_name b -> a = b.
Proof.
  unfold digest_name. simpl. intros E. injection E as E. apply py_str_inj. exact E.
Qed.

Lemma name_is_chat q chat k :
  queue_wf q -> In k (jobs q) ->
  String.eqb (job_name k) (digest_name chat) = (job_chat_id k =? chat)%Z.
Proof.
  intros Hwf Hk. rewrite (wf_names q Hwf k Hk).
  destruct (Z.eqb_spec (job_chat_id k) chat) as [->|Hne].
  - apply String.eqb_refl.
  - apply String.eqb_neq. intros E. apply Hne. apply digest_name_inj. exact E.
Qed.

Lemma get_jobs_by_name_chat q chat :
  queue_wf q -> get_jobs_by_name (digest_name chat) q = jobs_of_chat chat q.
Proof.
  intros Hwf. unfold get_jobs_by_name, jobs_of_chat.
  apply filter_ext_in. intros k Hk. apply (name_is_chat q); assumption.
Qed.

Lemma remove_all_chat q chat :
  queue_wf q ->
  remove_all (get_jobs_by_name (digest_name chat) q) q
    = {| jobs := other_chats chat (jobs q); next_id := next_id q |}.
Proof.
  intros Hwf.
  pose proof (remove_all_by_name (digest_name chat) q (wf_ids q Hwf)) as Hj.
  destruct (remove_all_jobs (get_jobs_by_name (digest_name chat) q) q) as (_ & Hn).
  destruct (remove_all _ q) as [js n]. simpl in *. subst. f_equal.
  unfold other_chats. apply filter_ext_in. intros k Hk. f_equal.
  apply (name_is_chat q); assumption.
Qed.

(** ** Splitting and parsing the time argument *)

Lemma string_app_assoc a b c : ((a ++ b) ++ c = a ++ (b ++ c))%string.
Proof. induction a as [|x a IH]; simpl; [|rewrite IH]; reflexivity. Qed.

Lemma string_app_nil_r a : (a ++ "" = a)%string.
Proof. induction a as [|x a IH]; simpl; [|rewrite IH]; reflexivity. Qed.

Lemma split_nonempty sep s : split sep s <> [].
Proof.
  destruct s as [|c r]; simpl; [discriminate|].
  destruct (Ascii.eqb c sep); [discriminate|].
  destruct (split sep r); discriminate.
Qed.

Lemma concat_split sep s : String.concat (String sep "") (split sep s) = s.
Proof.
  induction s as [|c r IH]; simpl; [reflexivity|].
  pose proof (split_nonempty sep r) as Hne.
  destruct (Ascii.eqb_spec c sep) as [->|Hc].
  - destruct (split sep r) as [|p ps]; [contradiction|].
    simpl in *. rewrite IH. reflexivity.
  - destruct (split sep r) as [|p ps]; [contradiction|].
    simpl in *. destruct ps; simpl in *; rewrite <- IH; reflexivity.
Qed.

Lemma split_no_sep sep s : contains sep s = false -> split sep s = [s].
Proof.
  induction s as [|c r IH]; simpl; intros H; [reflexivity|].
  apply orb_false_iff in H. destruct H as (Hc & Hr).
  rewrite Hc, (IH Hr). reflexivity.
Qed.

Lemma split_app sep a b :
  contains sep a = false ->
  split sep (a ++ String sep b) = a :: split sep b.
Proof.
  induction a as [|c r IH]; simpl; intros H.
  - rewrite Ascii.eqb_refl. reflexivity.
  - apply orb_false_iff in H. destruct H as (Hc & Hr).
    rewrite Hc, (IH Hr). reflexivity.
Qed.

Lemma parse_digits_no_colon : forall t acc b z,
  parse_digits acc b t = Some z -> contains ":" t = false.
Proof.
  induction t as [|c r IH]; simpl; intros acc b z H; [reflexivity|].
  destruct (Ascii.eqb_spec c ":") as [->|_]; simpl.
  - simpl in H. discriminate.
  - destruct (is_digit c); [eapply IH; eassumption|].
    destruct (Ascii.eqb c "_" && b); [eapply IH; eassumption|discriminate].
Qed.

Lemma lstrip_no_colon s :
  contains ":" (lstrip s) = false -> contains ":" s = false.
Proof.
  induction s as [|c r IH]; simpl; intros H; [reflexivity|].
  destruct (is_space c) eqn:Hs; [|exact H].
  rewrite (IH H), orb_false_r.
  destruct (Ascii.eqb_spec c ":") as [->|_]; [discriminate|reflexivity].
Qed.

Lemma rstrip_no_colon s :
  contains ":" (rstrip s) = false -> contains ":" s = false.
Proof.
  induction s as [|c r IH]; simpl; intros H; [reflexivity|].
  destruct (rstrip r) as [|c' r'] eqn:E.
  - rewrite IH by reflexivity. rewrite orb_false_r.
    destruct (is_space c) eqn:Hs.
    + destruct (Ascii.eqb_spec c ":") as [->|_]; [discriminate|reflexivity].
    + simpl in H. rewrite orb_false_r in H. exact H.
  - change (contains ":" (String c (String c' r')))
      with (Ascii.eqb c ":" || contains ":" (String c' r')) in H.
    apply orb_false_iff in H. destruct H as (Hc & Hr).
    rewrite Hc, (IH Hr). reflexivity.
Qed.

Lemma py_int_no_colon s z : py_int s = Some z -> contains ":" s = false.
Proof.
  unfold py_int. intros H.
  apply lstrip_no_colon, rstrip_no_colon.
  destruct (rstrip (lstrip s)) as [|c r]; [reflexivity|].
  destruct (Ascii.eqb_spec c "+") as [->|_].
  - simpl. eapply parse_digits_no_colon; eassumption.
  - destruct (Ascii.eqb_spec c "-") as [->|_].
    + simpl. destruct (parse_digits 0 false r) eqn:E; [|discriminate].
      eapply parse_digits_no_colon; eassumption.
    + eapply parse_digits_no_colon; eassumption.
Qed.

(** [int] reads exactly the integer texts. *)
Lemma parse_digits_sound : forall t acc z p,
  digits_text p acc ->
  (parse_digits acc true t = Some z -> digits_text (p ++ t) z) /\
  (parse_digits acc false t = Some z ->
   digits_text (p ++ String "_" t) z).
Proof.
  induction t as [|c r IH]; intros acc z p Hp; simpl.
  - split; [|discriminate].
    intros E. injection E as <-. rewrite string_app_nil_r. exact Hp.
  - destruct (is_digit c) eqn:Hd.
    + split; intros E.
      * destruct (IH _ z _ (digits_next p acc c Hp Hd)) as (H & _).
        specialize (H E). rewrite string_app_assoc in H. exact H.
      * destruct (IH _ z _ (digits_under p acc c Hp Hd)) as (H & _).
        specialize (H E). rewrite string_app_assoc in H. exact H.
    + split; [|rewrite andb_false_r; discriminate].
      destruct (Ascii.eqb_spec c "_") as [->|_]; [|discriminate].
      simpl. intros E. destruct (IH acc z p Hp) as (_ & H). exact (H E).
Qed.

Lemma parse_digits_text t z :
  parse_digits 0 false t = Some z -> digits_text t z.
Proof.
  destruct t as [|c r]; simpl; [discriminate|].
  destruct (is_digit c) eqn:Hd; [|rewrite andb_false_r; discriminate].
  intros E.
  destruct (parse_digits_sound r _ z _ (digits_one c Hd)) as (H & _).
  exact (H E).
Qed.

Lemma underscore_is_no_digit : is_digit "_" = false.
Proof. reflexivity. Qed.

Lemma parse_digits_complete s v :
  digits_text s v ->
  forall rest, parse_digits 0 false (s ++ rest) = parse_digits v true rest.
Proof.
  induction 1 as [d Hd|s v d Hs IH Hd|s v d Hs IH Hd]; intros rest.
  - simpl. rewrite Hd. reflexivity.
  - rewrite string_app_assoc, IH. simpl. rewrite Hd. reflexivity.
  - rewrite string_app_assoc, IH. simpl. rewrite Hd. reflexivity.
Qed.

Lemma text_parse_digits s v :
  digits_text s v -> parse_digits 0 false s = Some v.
Proof.
  intros H. rewrite <- (string_app_nil_r s).
  rewrite (parse_digits_complete s v H). reflexivity.
Qed.

Lemma digit_is_no_blank d : is_digit d = true -> is_space d = false.
Proof.
  unfold is_digit, is_space. intros H.
  apply andb_true_iff in H. destruct H as (H1 & H2).
  apply Nat.leb_le in H1.
  destruct (Nat.leb_spec (nat_of_ascii d) 13); [lia|].
  rewrite andb_false_r. simpl. apply Nat.eqb_neq. lia.
Qed.

Lemma digits_text_head s v :
  digits_text s v -> exists d r, s = String d r /\ is_digit d = true.
Proof.
  induction 1 as [d Hd|s v d Hs (e & r & -> & He) Hd
                 |s v d Hs (e & r & -> & He) Hd]; simpl; eauto.
Qed.

Lemma digits_text_last s v :
  digits_text s v ->
  exists u d, s = (u ++ String d "")%string /\ is_digit d = true.
Proof.
  induction 1 as [d Hd|s v d Hs _ Hd|s v d Hs _ Hd].
  - exists "", d. auto.
  - exists s, d. auto.
  - exists (s ++ "_")%string, d. rewrite string_app_assoc. auto.
Qed.

Lemma lstrip_spec s :
  exists pre, all_blank pre = true /\ s = (pre ++ lstrip s)%string.
Proof.
  induction s as [|c r (pre & Hb & E)]; simpl.
  - exists "". auto.
  - destruct (is_space c) eqn:Hc.
    + exists (String c pre). simpl. rewrite Hc, Hb, <- E. auto.
    + exists "". auto.
Qed.

Lemma rstrip_spec s :
  exists post, all_blank post = true /\ s = (rstrip s ++ post)%string.
Proof.
  induction s as [|c r (post & Hb & E)]; simpl.
  - exists "". auto.
  - destruct (rstrip r) as [|c' r'] eqn:Er.
    + destruct (is_space c) eqn:Hc.
      * exists (String c post). simpl in *. rewrite Hc, Hb, <- E. auto.
      * exists post. simpl in *. subst r. auto.
    + exists post. simpl in *. rewrite <- E. auto.
Qed.

Lemma lstrip_blanks pre t :
  all_blank pre = true -> lstrip (pre ++ t) = lstrip t.
Proof.
  induction pre as [|c r IH]; simpl; intros H; [reflexivity|].
  apply andb_true_iff in H. destruct H as (Hc & Hr).
  rewrite Hc. apply IH. exact Hr.
Qed.

Lemma rstrip_of_blanks post : all_blank post = true -> rstrip post = "".
Proof.
  induction post as [|c r IH]; simpl; intros H; [reflexivity|].
  apply andb_true_iff in H. destruct H as (Hc & Hr).
  rewrite (IH Hr), Hc. reflexivity.
Qed.

Lemma rstrip_keeps u d post :
  is_space d = false -> all_blank post = true ->
  rstrip ((u ++ String d "") ++ post) = (u ++ String d "")%string.
Proof.
  intros Hd Hp. induction u as [|c r IH]; simpl.
  - rewrite (rstrip_of_blanks post Hp), Hd. reflexivity.
  - rewrite IH. destruct r; reflexivity.
Qed.

Lemma strip_core pre core post c d u r :
  all_blank pre = true -> all_blank post = true ->
  core = String c r -> is_space c = false ->
  core = (u ++ String d "")%string -> is_space d = false ->
  rstrip (lstrip (pre ++ core ++ post)) = core.
Proof.
  intros Hpre Hpost Ec Hc Ed Hd.
  rewrite (lstrip_blanks pre _ Hpre).
  assert (E : lstrip (core ++ post) = (core ++ post)%string).
  { rewrite Ec. simpl. rewrite Hc. reflexivity. }
  rewrite E, Ed. apply rstrip_keeps; assumption.
Qed.

Lemma py_int_text s z : py_int s = Some z <-> int_text s z.
Proof.
  split.
  - unfold py_int. intros H.
    destruct (lstrip_spec s) as (pre & Hpre & Es).
    destruct (rstrip_spec (lstrip s)) as (post & Hpost & El).
    rewrite El in Es. clear El.
    destruct (rstrip (lstrip s)) as [|c r]; [discriminate|].
    destruct (Ascii.eqb_spec c "+") as [->|_].
    { exists pre, r, post, z.
      split; [exact Hpre|split; [exact Hpost|split]].
      - apply parse_digits_text. exact H.
      - right. left. split; [exact Es|reflexivity]. }
    destruct (Ascii.eqb_spec c "-") as [->|_].
    { destruct (parse_digits 0 false r) as [v|] eqn:E; [|discriminate].
      injection H as <-.
      exists pre, r, post, v.
      split; [exact Hpre|split; [exact Hpost|split]].
      - apply parse_digits_text. exact E.
      - right. right. split; [exact Es|reflexivity]. }
    exists pre, (String c r), post, z.
    split; [exact Hpre|split; [exact Hpost|split]].
    + apply parse_digits_text. exact H.
    + left. split; [exact Es|reflexivity].
  - intros (pre & body & post & v & Hpre & Hpost & Hbody & Hs).
    destruct (digits_text_head body v Hbody) as (e & r & Eb & He).
    destruct (digits_text_last body v Hbody) as (u & d & Ed & Hd).
    pose proof (digit_is_no_blank d Hd) as Hdb.
    pose proof (text_parse_digits body v Hbody) as Hv.
    unfold py_int.
    destruct Hs as [(-> & ->)|[(-> & ->)|(-> & ->)]].
    + rewrite (strip_core pre body post e d u r Hpre Hpost Eb
                 (digit_is_no_blank e He) Ed Hdb).
      rewrite Eb in *.
      destruct (Ascii.eqb_spec e "+") as [->|_]; [discriminate|].
      destruct (Ascii.eqb_spec e "-") as [->|_]; [discriminate|].
      exact Hv.
    + change (pre ++ "+" ++ body ++ post)%string
        with (pre ++ (String "+" body) ++ post)%string.
      rewrite (strip_core pre (String "+" body) post "+" d (String "+" u) body
                 Hpre Hpost eq_refl eq_refl (f_equal (String "+") Ed) Hdb).
      simpl. exact Hv.
    + change (pre ++ "-" ++ body ++ post)%string
        with (pre ++ (String "-" body) ++ post)%string.
      rewrite (strip_core pre (String "-" body) post "-" d (String "-" u) body
                 Hpre Hpost eq_refl eq_refl (f_equal (String "-") Ed) Hdb).
      simpl. rewrite Hv. reflexivity.
Qed.

Lemma parse_time_sound arg hh mm :
  parse_time arg = Some (hh, mm) -> time_ok arg.
Proof.
  unfold parse_time. intros H.
  pose proof (concat_split ":" arg) as Hjoin.
  destruct (split ":" arg) as [|a [|b [|c l]]]; simpl in H; try discriminate.
  - destruct (py_int a); discriminate.
  - destruct (py_int a) as [h|] eqn:Ea; [|discriminate].
    destruct (py_int b) as [m|] eqn:Eb; [|discriminate].
    destruct ((0 <=? h) && (h <? 24) && (0 <=? m) && (m <? 60))%Z eqn:Er;
      [|discriminate].
    injection H as <- <-.
    apply py_int_text in Ea, Eb.
    exists a, b, h, m. simpl in Hjoin.
    repeat split; auto; lia.
  - destruct (py_int a); [|discriminate].
    destruct (py_int b); [|discriminate].
    destruct (py_int c); discriminate.
Qed.

Lemma parse_time_complete arg :
  time_ok arg ->
  contains ":" arg = true /\ exists hh mm, parse_time arg = Some (hh, mm).
Proof.
  intros (a & b & hh & mm & -> & Ea & Eb & Hh & Hm).
  apply py_int_text in Ea, Eb.
  pose proof (py_int_no_colon a hh Ea) as Na.
  pose proof (py_int_no_colon b mm Eb) as Nb.
  split.
  - clear -Na. induction a as [|c r IH]; simpl in *.
    + reflexivity.
    + apply orb_false_iff in Na. destruct Na as (Hc & Hr).
      rewrite Hc. simpl. apply IH. exact Hr.
  - exists hh, mm. unfold parse_time.
    change (a ++ ":" ++ b)%string with (a ++ String ":" b)%string.
    rewrite split_app, split_no_sep by assumption.
    simpl. rewrite Ea, Eb.
    replace ((0 <=? hh) && (hh <? 24) && (0 <=? mm) && (mm <? 60))%Z with true;
      [reflexivity|].
    symmetry. rewrite !andb_true_iff.
    repeat split; (apply Z.leb_le || apply Z.ltb_lt); lia.
Qed.

Lemma all_out_of_range_times_fail :
  forallb (fun h => forallb (shown_time_fails h) (seq 0 100)) (seq 0 100) = true.
Proof. vm_compute. reflexivity. Qed.

Lemma out_of_range_times_fail h m :
  (h < 100)%nat -> (m < 100)%nat ->
  parse_time (shown_time (Z.of_nat h) (Z.of_nat m)) = None \/
  (h < 24 /\ m < 60)%nat.
Proof.
  intros Hh Hm.
  pose proof all_out_of_range_times_fail as H. rewrite forallb_forall in H.
  specialize (H h). rewrite forallb_forall in H.
  specialize (H ltac:(apply in_seq; lia) m ltac:(apply in_seq; lia)).
  unfold shown_time_fails in H.
  destruct (parse_time (shown_time (Z.of_nat h) (Z.of_nat m)));
    [|left; reflexivity].
  right. apply andb_true_iff in H. destruct H as (H1 & H2).
  apply Nat.ltb_lt in H1, H2. auto.
Qed.

(** An argument is turned down exactly when it is no such time. *)
Lemma parse_time_none arg : parse_time arg = None <-> ~ time_ok arg.
Proof.
  split.
  - intros E Hok. apply parse_time_complete in Hok.
    destruct Hok as (_ & hh & mm & E'). congruence.
  - intros Hbad. destruct (parse_time arg) as [[hh mm]|] eqn:E; [|reflexivity].
    exfalso. apply Hbad. eapply parse_time_sound. exact E.
Qed.

(** C7 (as amended).  For every [schedule_digest] input of ASCII text whose
    time is not two integer texts around one colon (each one decimal digits
    with an optional sign, blanks around it and single underscores between
    digits allowed, as [int] reads them) with the hour in 0..23 and the
    minute in 0..59, the command answers with one of its two usage messages
    and leaves the job queue as it was: no job is created and none is
    removed or replaced.  That is so, in particular, of every argument
    without a colon or with more than one, and of every two-digit time
    [hh:mm] with [hh] above 23 or [mm] above 59, such as "25:61". *)
Theorem invalid_time_is_rejected_without_change
    (env : Env) (args : list string) (chat : Z) (q : JobQueue) :
  forallb ascii_only args = true ->
  (~ (exists arg, args = [arg] /\ time_ok arg) ->
   schedule_digest_cmd env args chat q = (q, [Plain usage_reply]) \/
   schedule_digest_cmd env args chat q = (q, [Plain invalid_reply])) /\
  (forall arg, args = [arg] -> length (split ":" arg) <> 2%nat ->
   ~ time_ok arg) /\
  (forall hh mm, args = [shown_time hh mm] ->
   (0 <= hh < 100)%Z -> (0 <= mm < 100)%Z -> ~ valid_time hh mm ->
   schedule_digest_cmd env args chat q = (q, [Plain invalid_reply])).
Proof.
  intros _.
  assert (Hrej : ~ (exists arg, args = [arg] /\ time_ok arg) ->
    schedule_digest_cmd env args chat q = (q, [Plain usage_reply]) \/
    schedule_digest_cmd env args chat q = (q, [Plain invalid_reply])).
  { intros Hbad. unfold schedule_digest_cmd.
    destruct args as [|arg [|arg' args]]; auto.
    destruct (contains ":" arg); simpl; auto.
    destruct (parse_time arg) as [[hh mm]|] eqn:E; auto.
    exfalso. apply Hbad. exists arg. split; [reflexivity|].
    eapply parse_time_sound. exact E. }
  split; [exact Hrej|split].
  - intros arg _ Hlen Hok. apply parse_time_complete in Hok.
    destruct Hok as (_ & hh & mm & E). unfold parse_time in E.
    destruct (split ":" arg) as [|a [|b [|c l]]]; simpl in *;
      try discriminate; try lia.
    + destruct (py_int a); discriminate.
    + destruct (py_int a); [|discriminate].
      destruct (py_int b); [|discriminate].
      destruct (py_int c); discriminate.
  - intros hh mm -> Hh Hm Hbad.
    assert (E : parse_time (shown_time hh mm) = None).
    { destruct (out_of_range_times_fail (Z.to_nat hh) (Z.to_nat mm))
        as [E|E]; try lia.
      - rewrite !Z2Nat.id in E by lia. exact E.
      - exfalso. apply Hbad. unfold valid_time. lia. }
    unfold schedule_digest_cmd. rewrite E.
    destruct (contains ":" (shown_time hh mm)) eqn:Hc; simpl; [reflexivity|].
    exfalso. unfold shown_time in Hc.
    clear -Hc. induction (pad2 hh) as [|c r IH]; simpl in Hc.
    + discriminate.
    + apply orb_false_iff in Hc. destruct Hc as (_ & Hc). auto.
Qed.

Lemma invalid_time_witness :
  schedule_digest_cmd sample_env ["25:61"] 1 morning_queue
    = (morning_queue, [Plain invalid_reply]) /\
  (schedule_digest_cmd sample_env ["0830"] 1 morning_queue
     = (morning_queue, [Plain usage_reply]) \/
   schedule_digest_cmd sample_env ["0830"] 1 morning_queue
     = (morning_queue, [Plain invalid_reply])).
Proof.
  split.
  - destruct (invalid_time_is_rejected_without_change
                sample_env ["25:61"] 1 morning_queue eq_refl) as (_ & _ & H).
    apply (H 25%Z 61%Z); [reflexivity|lia|lia|].
    unfold valid_time. lia.
  - destruct (invalid_time_is_rejected_without_change
                sample_env ["0830"] 1 morning_queue eq_refl) as (H & Hc & _).
    apply H. intros (arg & E & Hok). injection E as <-.
    revert Hok. apply (Hc "0830"); [reflexivity|].
    vm_compute. lia.
Defined.

(** C7 (as stated) fails: "+7:+9" and "1_0:0_5" are not of the form HH:MM,
    yet the command takes them as 07:09 and 10:05 and replaces the 08:30
    job of the chat.  (A single digit is enough as well: "8:5" is 08:05.) *)
Lemma signed_time_replaces_the_job :
  map (fun j => (job_hour j, job_minute j)) (jobs morning_queue)
    = [(8, 30)]%Z /\
  (let r := schedule_digest_cmd sample_env ["+7:+9"] 1 morning_queue in
   map (fun j => (job_hour j, job_minute j)) (jobs (fst r)) = [(7, 9)]%Z /\
   snd r = [Plain (set_reply sample_env 7 9)]) /\
  (let r := schedule_digest_cmd sample_env ["1_0:0_5"] 1 morning_queue in
   map (fun j => (job_hour j, job_minute j)) (jobs (fst r)) = [(10, 5)]%Z /\
   snd r = [Plain (set_reply sample_env 10 5)]) /\
  parse_time "8:5" = Some (8, 5)%Z.
Proof. vm_compute. repeat split. Qed.

(** ** Scheduling and cancelling *)

Lemma schedule_accepts env arg chat q hh mm :
  queue_wf q -> parse_time arg = Some (hh, mm) ->
  schedule_digest_cmd env [arg] chat q
    = ({| jobs := other_chats chat (jobs q) ++ [new_job hh mm chat q];
          next_id := S (next_id q) |},
       [Plain (set_reply env hh mm)]).
Proof.
  intros Hwf E. unfold schedule_digest_cmd.
  destruct (parse_time_complete arg (parse_time_sound arg hh mm E)) as (-> & _).
  simpl. rewrite E, (remove_all_chat q chat Hwf). reflexivity.
Qed.

Lemma schedule_outcome env args chat q :
  queue_wf q ->
  fst (schedule_digest_cmd env args chat q) = q \/
  exists hh mm,
    fst (schedule_digest_cmd env args chat q)
      = {| jobs := other_chats chat (jobs q) ++ [new_job hh mm chat q];
           next_id := S (next_id q) |}.
Proof.
  intros Hwf. destruct args as [|arg [|arg' args]]; try (left; reflexivity).
  destruct (parse_time arg) as [[hh mm]|] eqn:E.
  - right. exists hh, mm. rewrite (schedule_accepts env arg chat q hh mm Hwf E).
    reflexivity.
  - left. unfold schedule_digest_cmd. rewrite E.
    destruct (contains ":" arg); reflexivity.
Qed.

Lemma cancel_outcome chat q :
  queue_wf q ->
  fst (cancel_digest_cmd chat q)
    = {| jobs := other_chats chat (jobs q); next_id := next_id q |}.
Proof.
  intros Hwf. unfold cancel_digest_cmd.
  destruct (get_jobs_by_name (digest_name chat) q) as [|j js] eqn:E.
  - simpl. rewrite get_jobs_by_name_chat in E by assumption.
    unfold other_chats. rewrite filter_all; [destruct q; reflexivity|].
    intros k Hk. destruct (Z.eqb_spec (job_chat_id k) chat) as [Hc|]; [|reflexivity].
    exfalso. assert (Hin : In k (jobs_of_chat chat q)).
    { apply filter_In. split; [assumption|]. apply Z.eqb_eq. assumption. }
    rewrite E in Hin. contradiction.
  - cbn [fst]. rewrite <- E. apply remove_all_chat. assumption.
Qed.

Lemma chat_of_other_chats c chat l :
  filter (fun j => (job_chat_id j =? c)%Z) (other_chats chat l)
    = if (c =? chat)%Z then [] else filter (fun j => (job_chat_id j =? c)%Z) l.
Proof.
  unfold other_chats. rewrite filter_twice.
  destruct (Z.eqb_spec c chat) as [->|Hne].
  - apply filter_none. intros k _. destruct (job_chat_id k =? chat)%Z; reflexivity.
  - apply filter_ext. intros k.
    destruct (Z.eqb_spec (job_chat_id k) c), (Z.eqb_spec (job_chat_id k) chat);
      simpl; congruence.
Qed.

Lemma NoDup_map_filter {A B} (f : A -> B) (g : A -> bool) l :
  NoDup (map f l) -> NoDup (map f (filter g l)).
Proof.
  induction l as [|a l IH]; simpl; intros H; [constructor|].
  inversion H as [|? ? Hnotin Hnd]; subst.
  destruct (g a); simpl; [|auto].
  constructor; [|auto].
  intros Hin. apply Hnotin. apply in_map_iff in Hin.
  destruct Hin as (x & Hx & Hin). apply filter_In in Hin.
  apply in_map_iff. exists x. tauto.
Qed.

Lemma other_chats_wf chat q :
  queue_wf q ->
  queue_wf {| jobs := other_chats chat (jobs q); next_id := next_id q |}.
Proof.
  intros Hwf. constructor; simpl.
  - intros j Hj. apply filter_In in Hj. apply (wf_names q Hwf). tauto.
  - intros j Hj. apply filter_In in Hj. apply (wf_fresh q Hwf). tauto.
  - apply NoDup_map_filter. apply (wf_ids q Hwf).
Qed.

Lemma added_job_wf hh mm chat q :
  queue_wf q ->
  queue_wf {| jobs := other_chats chat (jobs q) ++ [new_job hh mm chat q];
              next_id := S (next_id q) |}.
Proof.
  intros Hwf. pose proof (other_chats_wf chat q Hwf) as Ho.
  constructor; simpl.
  - intros j Hj. apply in_app_or in Hj. destruct Hj as [Hj|[<-|[]]].
    + apply (wf_names _ Ho). exact Hj.
    + reflexivity.
  - intros j Hj. apply in_app_or in Hj. destruct Hj as [Hj|[<-|[]]].
    + pose proof (wf_fresh _ Ho j Hj). simpl in *. lia.
    + simpl. lia.
  - rewrite map_app. simpl.
    apply NoDup_app; [apply (wf_ids _ Ho)|repeat constructor; auto|].
    intros x Hx [<-|[]]. apply in_map_iff in Hx. destruct Hx as (j & Hid & Hj).
    pose proof (wf_fresh _ Ho j Hj). simpl in *. lia.
Qed.

Lemma jobs_of_chat_added hh mm chat q c :
  jobs_of_chat c {| jobs := other_chats chat (jobs q) ++ [new_job hh mm chat q];
                    next_id := S (next_id q) |}
    = if (c =? chat)%Z then [new_job hh mm chat q] else jobs_of_chat c q.
Proof.
  unfold jobs_of_chat. simpl. rewrite filter_app, chat_of_other_chats. simpl.
  rewrite (Z.eqb_sym chat c).
  destruct (c =? chat)%Z; [reflexivity|apply app_nil_r].
Qed.

Lemma jobs_of_chat_removed chat q c :
  jobs_of_chat c {| jobs := other_chats chat (jobs q); next_id := next_id q |}
    = if (c =? chat)%Z then [] else jobs_of_chat c q.
Proof. unfold jobs_of_chat. simpl. apply chat_of_other_chats. Qed.

Lemma schedule_keeps_wf env args chat q :
  queue_wf q -> queue_wf (fst (schedule_digest_cmd env args chat q)).
Proof.
  intros Hwf. destruct (schedule_outcome env args chat q Hwf) as [->|(hh & mm & ->)];
    [assumption|apply added_job_wf; assumption].
Qed.

Lemma schedule_keeps_one_per_chat env args chat q :
  queue_wf q -> one_digest_per_chat q ->
  one_digest_per_chat (fst (schedule_digest_cmd env args chat q)).
Proof.
  intros Hwf Hone.
  destruct (schedule_outcome env args chat q Hwf) as [->|(hh & mm & ->)];
    [assumption|].
  intros c. rewrite jobs_of_chat_added.
  destruct (c =? chat)%Z; [simpl; lia|apply Hone].
Qed.

Lemma cancel_keeps_wf chat q :
  queue_wf q -> queue_wf (fst (cancel_digest_cmd chat q)).
Proof.
  intros Hwf. rewrite cancel_outcome by assumption.
  apply other_chats_wf. assumption.
Qed.

Lemma cancel_keeps_one_per_chat chat q :
  queue_wf q -> one_digest_per_chat q ->
  one_digest_per_chat (fst (cancel_digest_cmd chat q)).
Proof.
  intros Hwf Hone. rewrite cancel_outcome by assumption.
  intros c. rewrite jobs_of_chat_removed.
  destruct (c =? chat)%Z; [simpl; lia|apply Hone].
Qed.

Lemma empty_queue_wf : queue_wf empty_queue.
Proof. constructor; simpl; try contradiction. constructor. Qed.

Lemma reachable_invariant env q :
  reachable env q -> queue_wf q /\ one_digest_per_chat q.
Proof.
  induction 1 as [|q args chat _ (Hwf & Hone)|q chat _ (Hwf & Hone)].
  - split; [apply empty_queue_wf|]. intros c. simpl. lia.
  - split; [apply schedule_keeps_wf|apply schedule_keeps_one_per_chat]; assumption.
  - split; [apply cancel_keeps_wf|apply cancel_keeps_one_per_chat]; assumption.
Qed.

Lemma digest_job_chat env chat c m :
  In (c, m) (sent (digest_job env chat)) -> c = chat.
Proof.
  unfold digest_job. destruct (get_forex_news env 5) as [heads|e].
  - destruct (digest_loop env (firstn 4 MAJOR_PAIRS) [] []) as [out log].
    simpl. intros [E|[E|[]]]; congruence.
  - simpl. intros [E|[]]; congruence.
Qed.

Lemma due_in hh mm q j :
  In j (due hh mm q) <-> In j (jobs q) /\ job_hour j = hh /\ job_minute j = mm.
Proof.
  unfold due. rewrite filter_In, andb_true_iff, !Z.eqb_eq. reflexivity.
Qed.

Lemma jobs_of_chat_in chat q j :
  In j (jobs_of_chat chat q) <-> In j (jobs q) /\ job_chat_id j = chat.
Proof. unfold jobs_of_chat. rewrite filter_In, Z.eqb_eq. reflexivity. Qed.

(** C6.  On a queue built by this program: a [schedule_digest] with a valid
    time removes every job named after the chat before it installs the new
    one, so the jobs of that name, and the jobs of that chat, are then
    exactly the new job, and the jobs of other chats are untouched; after
    [/schedule_digest 08:30] and then [/schedule_digest 09:00] in chat 1
    exactly one job exists for chat 1, it fires at 09:00, and nothing fires
    for chat 1 at 08:30; and every [schedule_digest], whatever its
    arguments, preserves "at most one digest job per chat", which therefore
    holds of every queue the commands can reach from the empty one. *)
Theorem schedule_replaces_the_chat_job (env : Env) (q : JobQueue) :
  queue_wf q ->
  (forall chat arg hh mm,
      parse_time arg = Some (hh, mm) ->
      let q' := fst (schedule_digest_cmd env [arg] chat q) in
      get_jobs_by_name (digest_name chat) q' = [new_job hh mm chat q] /\
      jobs_of_chat chat q' = [new_job hh mm chat q] /\
      forall c, c <> chat -> jobs_of_chat c q' = jobs_of_chat c q) /\
  (let q1 := fst (schedule_digest_cmd env ["08:30"] 1 q) in
   let q2 := fst (schedule_digest_cmd env ["09:00"] 1 q1) in
   exists j,
     jobs_of_chat 1 q2 = [j] /\
     get_jobs_by_name (digest_name 1) q2 = [j] /\
     job_hour j = 9%Z /\ job_minute j = 0%Z /\
     In j (due 9 0 q2) /\
     forall k, In k (due 8 30 q2) -> job_chat_id k <> 1%Z) /\
  (forall args chat,
      one_digest_per_chat q ->
      one_digest_per_chat (fst (schedule_digest_cmd env args chat q)) /\
      queue_wf (fst (schedule_digest_cmd env args chat q))) /\
  (reachable env q -> one_digest_per_chat q).
Proof.
  intros Hwf.
  assert (Hreplace : forall q0 chat arg hh mm,
    queue_wf q0 -> parse_time arg = Some (hh, mm) ->
    get_jobs_by_name (digest_name chat) (fst (schedule_digest_cmd env [arg] chat q0))
      = [new_job hh mm chat q0] /\
    jobs_of_chat chat (fst (schedule_digest_cmd env [arg] chat q0))
      = [new_job hh mm chat q0] /\
    forall c, c <> chat ->
      jobs_of_chat c (fst (schedule_digest_cmd env [arg] chat q0))
        = jobs_of_chat c q0).
  { intros q0 chat arg hh mm Hwf0 E.
    pose proof (schedule_keeps_wf env [arg] chat q0 Hwf0) as Hwf'.
    rewrite (get_jobs_by_name_chat _ chat Hwf').
    rewrite (schedule_accepts env arg chat q0 hh mm Hwf0 E). cbn [fst].
    repeat split.
    - rewrite jobs_of_chat_added, Z.eqb_refl. reflexivity.
    - rewrite jobs_of_chat_added, Z.eqb_refl. reflexivity.
    - intros c Hc. rewrite jobs_of_chat_added.
      destruct (Z.eqb_spec c chat); [contradiction|reflexivity]. }
  split; [|split; [|split]]; [| | |apply reachable_invariant].
  - intros chat arg hh mm E. apply Hreplace; assumption.
  - intros q1 q2.
    assert (Hwf1 : queue_wf q1) by (apply schedule_keeps_wf; assumption).
    destruct (Hreplace q1 1%Z "09:00" 9%Z 0%Z Hwf1 eq_refl) as (Hname & Hchat & _).
    fold q2 in Hname, Hchat.
    assert (Hin : In (new_job 9 0 1 q1) (jobs_of_chat 1 q2))
      by (rewrite Hchat; left; reflexivity).
    apply jobs_of_chat_in in Hin.
    exists (new_job 9 0 1 q1). repeat split; try assumption.
    + apply due_in. repeat split. tauto.
    + intros k Hk Hc. apply due_in in Hk. destruct Hk as (Hk & Hh & _).
      assert (Hk1 : In k (jobs_of_chat 1 q2)) by (apply jobs_of_chat_in; auto).
      rewrite Hchat in Hk1. destruct Hk1 as [<-|[]]. discriminate.
  - intros args chat Hone. split;
      [apply schedule_keeps_one_per_chat|apply schedule_keeps_wf]; assumption.
Qed.

Lemma schedule_replaces_the_chat_job_witness :
  let q1 := fst (schedule_digest_cmd sample_env ["08:30"] 1 empty_queue) in
  let q2 := fst (schedule_digest_cmd sample_env ["09:00"] 1 q1) in
  exists j,
    jobs_of_chat 1 q2 = [j] /\
    get_jobs_by_name (digest_name 1) q2 = [j] /\
    job_hour j = 9%Z /\ job_minute j = 0%Z /\
    In j (due 9 0 q2) /\
    forall k, In k (due 8 30 q2) -> job_chat_id k <> 1%Z.
Proof.
  apply (schedule_replaces_the_chat_job sample_env empty_queue).
  constructor; simpl; try contradiction. constructor.
Defined.

(** C8.  On a queue built by this program: [cancel_digest] in a chat with no
    digest job answers "No digest job set." and leaves the queue as it was;
    in a chat with one or more jobs of that name it answers that the digest
    is canceled and removes all of them, so no job of that name or chat is
    left, no later timer tick runs one or sends anything to that chat, and
    the jobs of other chats are untouched.  The two answers tell whether a
    job existed. *)
Theorem cancel_removes_the_chat_jobs (chat : Z) (q : JobQueue) :
  queue_wf q ->
  (get_jobs_by_name (digest_name chat) q = [] ->
     cancel_digest_cmd chat q = (q, [Plain "No digest job set."])) /\
  (get_jobs_by_name (digest_name chat) q <> [] ->
     exists q',
       cancel_digest_cmd chat q = (q', [Plain "🛑 Daily digest canceled."]) /\
       get_jobs_by_name (digest_name chat) q' = [] /\
       jobs_of_chat chat q' = [] /\
       (forall j, In j (get_jobs_by_name (digest_name chat) q) -> ~ In j (jobs q')) /\
       (forall c, c <> chat -> jobs_of_chat c q' = jobs_of_chat c q) /\
       (forall hh mm j, In j (due hh mm q') ->
          job_name j <> digest_name chat /\ job_chat_id j <> chat) /\
       (forall env hh mm run c m,
          In run (tick env hh mm q') -> In (c, m) (sent run) -> c <> chat)).
Proof.
  intros Hwf. split.
  - intros E. unfold cancel_digest_cmd. rewrite E. reflexivity.
  - intros Hne.
    pose proof (cancel_outcome chat q Hwf) as Hq'.
    pose proof (cancel_keeps_wf chat q Hwf) as Hwf'.
    exists (fst (cancel_digest_cmd chat q)).
    assert (Hnone : jobs_of_chat chat (fst (cancel_digest_cmd chat q)) = []).
    { rewrite Hq', jobs_of_chat_removed, Z.eqb_refl. reflexivity. }
    assert (Hgone : forall j, In j (jobs (fst (cancel_digest_cmd chat q))) ->
                              job_chat_id j <> chat).
    { intros j Hj Hc.
      assert (Hin : In j (jobs_of_chat chat (fst (cancel_digest_cmd chat q))))
        by (apply jobs_of_chat_in; auto).
      rewrite Hnone in Hin. contradiction. }
    split; [|split; [|split; [|split; [|split; [|split]]]]].
    + unfold cancel_digest_cmd.
      destruct (get_jobs_by_name (digest_name chat) q); [contradiction|reflexivity].
    + rewrite get_jobs_by_name_chat by assumption. exact Hnone.
    + exact Hnone.
    + intros j Hj Hin. rewrite get_jobs_by_name_chat in Hj by assumption.
      apply jobs_of_chat_in in Hj. apply (Hgone j Hin). tauto.
    + intros c Hc. rewrite Hq', jobs_of_chat_removed.
      destruct (Z.eqb_spec c chat); [contradiction|reflexivity].
    + intros hh mm j Hj. apply due_in in Hj. destruct Hj as (Hj & _).
      pose proof (Hgone j Hj) as Hc. split; [|exact Hc].
      rewrite (wf_names _ Hwf' j Hj). intros E. apply Hc.
      apply digest_name_inj. exact E.
    + intros env hh mm run c m Hrun Hsent ->.
      unfold tick in Hrun. apply in_map_iff in Hrun.
      destruct Hrun as (j & <- & Hj). apply due_in in Hj. destruct Hj as (Hj & _).
      apply digest_job_chat in Hsent. apply (Hgone j Hj). congruence.
Qed.

Lemma cancel_removes_the_chat_jobs_witness :
  cancel_digest_cmd 1 empty_queue = (empty_queue, [Plain "No digest job set."]) /\
  exists q',
    cancel_digest_cmd 1 morning_queue = (q', [Plain "🛑 Daily digest canceled."]) /\
    get_jobs_by_name (digest_name 1) q' = [] /\
    jobs_of_chat 1 q' = [].
Proof.
  split.
  - apply (cancel_removes_the_chat_jobs 1 empty_queue).
    + constructor; simpl; try contradiction. constructor.
    + reflexivity.
  - destruct (cancel_removes_the_chat_jobs 1 morning_queue) as (_ & H).
    + constructor; vm_compute.
      * intros j [<-|[]]. reflexivity.
      * intros j [<-|[]]. repeat constructor.
      * repeat constructor. intros [].
    + destruct H as (q' & H1 & H2 & H3 & _).
      * vm_compute. discriminate.
      * exists q'. repeat split; assumption.
Defined.

(** ** Batches *)

Lemma trends_loop_collects env : forall pairs out errs,
  trends_loop env pairs out errs
    = (out ++ successes env pairs,
       errs ++ map trends_error (failures env pairs)).
Proof.
  induction pairs as [|[base quote] pairs IH]; intros out errs; simpl.
  - rewrite !app_nil_r. reflexivity.
  - unfold analyzed at 1 2. simpl.
    destruct (analyze_pair (fetch_fx_daily env) base quote) as [a|e];
      rewrite IH; simpl; rewrite <- ?app_assoc; reflexivity.
Qed.

Lemma digest_loop_collects env : forall pairs out log,
  digest_loop env pairs out log
    = (out ++ successes env pairs,
       log ++ map digest_warning (failures env pairs)).
Proof.
  induction pairs as [|[base quote] pairs IH]; intros out log; simpl.
  - rewrite !app_nil_r. reflexivity.
  - unfold analyzed at 1 2. simpl.
    destruct (analyze_pair (fetch_fx_daily env) base quote) as [a|e];
      rewrite IH; simpl; rewrite <- ?app_assoc; reflexivity.
Qed.

Lemma every_pair_is_accounted_for env pairs :
  (length (successes env pairs) + length (failures env pairs))%nat
    = length pairs.
Proof.
  induction pairs as [|p pairs IH]; simpl; [reflexivity|].
  destruct (analyzed env p); simpl; rewrite ?length_app; simpl; lia.
Qed.

Lemma trends_cmd_reply env :
  trends_cmd env
    = trends_reply (successes env MAJOR_PAIRS)
                   (map trends_error (failures env MAJOR_PAIRS)).
Proof. unfold trends_cmd. rewrite trends_loop_collects. reflexivity. Qed.

Lemma digest_job_run env chat heads :
  get_forex_news env 5 = Ok heads ->
  digest_job env chat
    = {| sent :=
           [(chat, Markdown ("📰 *Daily Forex Headlines:*" ++ nl ++ nl
                            ++ match heads with
                               | [] => "No headlines."
                               | _ => join nl heads
                               end)%string);
            (chat, match successes env (firstn 4 MAJOR_PAIRS) with
                   | [] => Markdown "No trend data."
                   | _ => MarkdownTrends (successes env (firstn 4 MAJOR_PAIRS))
                   end)];
         logged := map digest_warning (failures env (firstn 4 MAJOR_PAIRS)) |}.
Proof.
  intros E. unfold digest_job. rewrite E, digest_loop_collects. reflexivity.
Qed.

(** C9 (as amended).  In the [/trends] command and in the scheduled digest a
    failed per-pair analysis is recorded and the loop goes on with the
    remaining pairs: every pair ends up as a snapshot or as a recorded
    failure, and on pairs [ok, fails, ok] the loop yields two snapshots and
    one recorded failure.  [/trends] reports the collected failures (the
    first five of them) to the user as a trailing message after the trend
    summary; the digest writes each failure to the log and sends the chat
    its two messages, the headlines and the trends, and no failure
    summary. *)
Theorem batch_records_failures_and_continues (env : Env) :
  (forall pairs,
      trends_loop env pairs [] []
        = (successes env pairs, map trends_error (failures env pairs)) /\
      digest_loop env pairs [] []
        = (successes env pairs, map digest_warning (failures env pairs)) /\
      (length (successes env pairs) + length (failures env pairs))%nat
        = length pairs) /\
  (forall p1 p2 p3 a1 e a3,
      analyzed env p1 = Ok a1 -> analyzed env p2 = Raise e ->
      analyzed env p3 = Ok a3 ->
      trends_loop env [p1; p2; p3] [] [] = ([a1; a3], [trends_error (p2, e)]) /\
      digest_loop env [p1; p2; p3] [] [] = ([a1; a3], [digest_warning (p2, e)])) /\
  (forall errs,
      errs = map trends_error (failures env MAJOR_PAIRS) -> errs <> [] ->
      exists summary,
        trends_cmd env = summary ++ [failure_summary errs] /\
        (summary = [] \/ summary = [MarkdownTrends (successes env MAJOR_PAIRS)])) /\
  (forall chat heads,
      get_forex_news env 5 = Ok heads ->
      logged (digest_job env chat)
        = map digest_warning (failures env (firstn 4 MAJOR_PAIRS)) /\
      exists news trends,
        sent (digest_job env chat) = [(chat, Markdown news); (chat, trends)] /\
        (trends = Markdown "No trend data." \/
         trends = MarkdownTrends (successes env (firstn 4 MAJOR_PAIRS)))).
Proof.
  split; [|split; [|split]].
  - intros pairs. rewrite trends_loop_collects, digest_loop_collects.
    repeat split. apply every_pair_is_accounted_for.
  - intros p1 p2 p3 a1 e a3 H1 H2 H3.
    rewrite trends_loop_collects, digest_loop_collects.
    unfold successes, failures. simpl. rewrite H1, H2, H3. split; reflexivity.
  - intros errs -> Hne. rewrite trends_cmd_reply. unfold trends_reply.
    destruct (map trends_error (failures env MAJOR_PAIRS)) as [|x l] eqn:E;
      [contradiction|].
    destruct (successes env MAJOR_PAIRS) as [|a out].
    + exists []. split; [reflexivity|left; reflexivity].
    + exists [MarkdownTrends (a :: out)]. split; [reflexivity|right; reflexivity].
  - intros chat heads E. rewrite (digest_job_run env chat heads E).
    cbn [sent logged]. split; [reflexivity|].
    destruct (successes env (firstn 4 MAJOR_PAIRS)) as [|a out];
      do 2 eexists; (split; [reflexivity|]); [left|right]; reflexivity.
Qed.

Lemma batch_records_failures_and_continues_witness :
  exists a1 a3,
    trends_loop gbp_fails_env [("EUR","USD"); ("GBP","USD"); ("USD","JPY")] [] []
      = ([a1; a3], ["GBP/USD: No time series returned."]) /\
    digest_loop gbp_fails_env [("EUR","USD"); ("GBP","USD"); ("USD","JPY")] [] []
      = ([a1; a3], ["digest pair fail GBP/USD: No time series returned."]).
Proof.
  destruct (batch_records_failures_and_continues gbp_fails_env) as (_ & H & _).
  do 2 eexists.
  apply (H ("EUR","USD") ("GBP","USD") ("USD","JPY") _ no_data _).
  - vm_compute. reflexivity.
  - vm_compute. reflexivity.
  - vm_compute. reflexivity.
Defined.

(** C9 (as stated) fails for the digest: when GBP/USD fails among the pairs
    of a digest, the three other pairs are analysed, the failure goes to
    the log, and the chat receives the headlines and the trends only, no
    message naming the failure. *)
Lemma digest_sends_no_failure_summary :
  logged (digest_job gbp_fails_env 1)
    = ["digest pair fail GBP/USD: No time series returned."] /\
  map (fun cm => match snd cm with
                 | Plain _ => "plain"
                 | Markdown _ => "markdown"
                 | MarkdownTrends items => join "," (map pair items)
                 end) (sent (digest_job gbp_fails_env 1))
    = ["markdown"; "EUR/USD,USD/JPY,USD/CHF"].
Proof. split; vm_compute; reflexivity. Qed.

(** ** Which pairs a batch covers *)






Lemma get_forex_news_length env limit heads :
  get_forex_news env limit = Ok heads -> (length heads <= limit)%nat.
Proof.
  unfold get_forex_news, bind. destruct (key_missing (NEWSAPI_KEY env)).
  - intros [= <-]. simpl. lia.
  - destruct (newsapi_articles env) as [articles|e]; [|discriminate].
    intros [= <-]. rewrite length_map, length_firstn. lia.
Qed.



(** * Further properties of the program *)

(** ** The indicator columns *)

Lemma rsi_defined_bounds closes period i v :
  (1 <= period)%nat ->
  nth_error (rsi (fins closes) period) i = Some v ->
  nan_or (fun q => 0 <= q /\ q <= 100) v.
Proof.
  intros Hp Hv. unfold rsi in Hv. apply zip_with_nth_inv in Hv.
  destruct Hv as (g & l & Hg & Hl & ->). apply rsi_of_bounds.
  - exact (Forall_nth _ _ _ _ (rsi_avg_gain_nonneg closes period Hp) Hg).
  - exact (Forall_nth _ _ _ _ (rsi_avg_loss_pos closes period Hp) Hl).
Qed.

Lemma in_price_range_test l :
  forallb in_price_rangeb l = true -> Forall in_price_range l.
Proof.
  intros H. apply Forall_forall. intros c Hc.
  rewrite forallb_forall in H. specialize (H c Hc).
  apply andb_true_iff in H. destruct H as (H1 & H2).
  split; apply Qle_bool_iff; assumption.
Qed.

(** X1.  RSI warm-up.  With [min_periods = period], the RSI of a Series of
    closes (of magnitude at most 1e300) is NaN at every position below
    [period] and a finite value within [0, 100] at every position from
    [period] on. *)
Theorem rsi_defined_from_period (closes : list Q) (period i : nat) (v : float) :
  (1 <= period)%nat ->
  Forall in_price_range closes ->
  nth_error (rsi (fins closes) period) i = Some v ->
  ((i < period)%nat -> v = NaN) /\
  ((period <= i)%nat -> exists q, v = Fin q /\ 0 <= q /\ q <= 100).
Proof.
  intros Hp _ Hv.
  pose proof (rsi_defined closes period i v Hp Hv) as Hd.
  pose proof (rsi_defined_bounds closes period i v Hp Hv) as Hr.
  split; intros Hi.
  - destruct (Nat.leb_spec period i); [lia|exact Hd].
  - destruct (Nat.leb_spec period i); [|lia].
    destruct Hd as (q & ->). destruct Hr as [E|(q' & E & Hq)]; [discriminate|].
    injection E as <-. exists q. tauto.
Qed.

Lemma rsi_defined_from_period_witness :
  nth_error (rsi (fins rising16) 14) 13 = Some NaN /\
  exists v q, nth_error (rsi (fins rising16) 14) 14 = Some v /\
              v = Fin q /\ 0 <= q /\ q <= 100.
Proof.
  assert (Hrange : Forall in_price_range rising16).
  { apply in_price_range_test. vm_compute. reflexivity. }
  split.
  - destruct (nth_error (rsi (fins rising16) 14) 13) as [v|] eqn:E.
    + destruct (rsi_defined_from_period rising16 14 13 v ltac:(lia) Hrange E)
        as (H & _).
      rewrite H by lia. reflexivity.
    + vm_compute in E. discriminate E.
  - destruct (nth_error (rsi (fins rising16) 14) 14) as [v|] eqn:E.
    + destruct (rsi_defined_from_period rising16 14 14 v ltac:(lia) Hrange E)
        as (_ & H).
      destruct (H ltac:(lia)) as (q & Hq). exists v, q. tauto.
    + vm_compute in E. discriminate E.
Defined.

(** ** The snapshot *)

Lemma row_of_bar df i r :
  nth_error (with_indicators df) i = Some r -> nth_error df i = Some (row_bar r).
Proof.
  intros Hr. destruct (with_indicators_columns df) as (Hb & _).
  exact (column_nth row_bar _ _ i r Hb Hr).
Qed.

(** X2.  The latest row, on a series of 201 or more positive closes (of
    magnitude at most 1e300), is the last bar of the series: the analysis
    returns a snapshot, which carries the close and the date of that bar
    and the label of the pair. *)
Theorem snapshot_is_of_the_last_bar
    (fetch : QuoteProvider) (base quote : string) (df : DataFrame) :
  fetch base quote = Ok df ->
  positive_closes df -> bounded_closes df -> (201 <= length df)%nat ->
  exists snap last,
    analyze_pair fetch base quote = Ok snap /\
    nth_error df (length df - 1) = Some last /\
    pair snap = pair_label base quote /\
    price snap = Fin (bar_close last) /\
    asof snap = bar_date last.
Proof.
  intros Hf Hpos _ Hlen.
  destruct (last_two_rows_are_last_two_bars df Hpos Hlen)
    as (pre & prev & latest & Hrows & Hprev & Hlatest).
  exists (snapshot_of base quote latest prev), (row_bar latest).
  split; [eapply analyze_pair_ok; eassumption|].
  split; [apply row_of_bar; exact Hlatest|].
  repeat split.
Qed.

Lemma snapshot_is_of_the_last_bar_witness :
  exists snap last,
    analyze_pair (provider_of cross_up_frame) "EUR" "USD" = Ok snap /\
    nth_error cross_up_frame (length cross_up_frame - 1) = Some last /\
    pair snap = pair_label "EUR" "USD" /\
    price snap = Fin (bar_close last) /\
    asof snap = bar_date last.
Proof.
  apply (snapshot_is_of_the_last_bar (provider_of cross_up_frame) "EUR" "USD").
  - reflexivity.
  - unfold positive_closes, cross_up_frame, frame_of_closes.
    apply Forall_map, Forall_forall. intros z Hz. simpl.
    apply in_app_or in Hz. destruct Hz as [Hz|[<-|[]]]; [|reflexivity].
    apply repeat_spec in Hz. subst. reflexivity.
  - assert (H : Forall in_price_range (map bar_close cross_up_frame)).
    { apply in_price_range_test. vm_compute. reflexivity. }
    rewrite Forall_map in H. exact H.
  - vm_compute. lia.
Defined.

Lemma analyze_pair_ok_inv fetch base quote df snap :
  fetch base quote = Ok df -> analyze_pair fetch base quote = Ok snap ->
  exists pre prev latest s50 s200 p50 p200,
    dropna (with_indicators df) = pre ++ [prev; latest] /\
    SMA50 latest = Fin s50 /\ SMA200 latest = Fin s200 /\
    SMA50 prev = Fin p50 /\ SMA200 prev = Fin p200 /\
    snap = snapshot_of base quote latest prev.
Proof.
  intros Hf Hok.
  destruct (Nat.lt_ge_cases (length (dropna (with_indicators df))) 2) as [Hlt|Hge].
  - rewrite (analyze_pair_index_error fetch base quote df Hf Hlt) in Hok.
    discriminate.
  - destruct (analyze_pair_last_two fetch base quote df Hf Hge)
      as (pre & prev & latest & s50 & s200 & p50 & p200
          & Hrows & E1 & E2 & E3 & E4 & Hsnap).
    exists pre, prev, latest, s50, s200, p50, p200.
    repeat split; try assumption. congruence.
Qed.

Lemma dropna_rsi_in_range df r :
  In r (dropna (with_indicators df)) ->
  exists q, RSI14 r = Fin q /\ 0 <= q /\ q <= 100.
Proof.
  intros Hin. unfold dropna in Hin. apply filter_In in Hin.
  destruct Hin as (Hin & Hnan).
  apply In_nth_error in Hin. destruct Hin as (i & Hr).
  destruct (with_indicators_columns df) as (_ & _ & _ & Hrsi & _).
  pose proof (column_nth RSI14 _ _ i r Hrsi Hr) as Hnth.
  rewrite close_column_fins in Hnth.
  destruct (rsi_defined_bounds (map bar_close df) 14 i (RSI14 r) ltac:(lia) Hnth)
    as [E|(q & E & Hq)].
  - unfold row_has_nan in Hnan. rewrite E in Hnan. simpl in Hnan.
    rewrite orb_true_r in Hnan. discriminate.
  - exists q. tauto.
Qed.

(** X4.  Every snapshot carries a finite RSI within [0, 100], and its state
    reads that value: Overbought exactly from 70 up, Oversold exactly from
    30 down, Neutral exactly strictly between. *)
Theorem snapshot_rsi_state_reads_rsi
    (fetch : QuoteProvider) (base quote : string) (df : DataFrame)
    (snap : Snapshot) :
  fetch base quote = Ok df -> analyze_pair fetch base quote = Ok snap ->
  exists r, snap_rsi snap = Fin r /\ 0 <= r /\ r <= 100 /\
    (rsi_state snap = "Overbought" <-> 70 <= r) /\
    (rsi_state snap = "Oversold" <-> r <= 30) /\
    (rsi_state snap = "Neutral" <-> 30 < r /\ r < 70).
Proof.
  intros Hf Hok.
  destruct (analyze_pair_ok_inv fetch base quote df snap Hf Hok)
    as (pre & prev & latest & _ & _ & _ & _ & Hrows & _ & _ & _ & _ & ->).
  destruct (last_two_in pre prev latest) as (_ & Hl). rewrite <- Hrows in Hl.
  destruct (dropna_rsi_in_range df latest Hl) as (r & Er & H0 & H100).
  exists r. unfold snapshot_of; cbn [snap_rsi rsi_state]. rewrite Er.
  pose proof (fge_Fin r 70) as G. pose proof (fle_Fin r 30) as L.
  repeat (split; [assumption|]).
  destruct (fge (Fin r) (Fin 70)), (fle (Fin r) (Fin 30));
    intuition (try discriminate; try lra).
Qed.

Lemma snapshot_rsi_state_witness :
  exists snap r,
    analyze_pair (provider_of cross_up_frame) "EUR" "USD" = Ok snap /\
    snap_rsi snap = Fin r /\ 0 <= r /\ r <= 100 /\
    (rsi_state snap = "Overbought" <-> 70 <= r).
Proof.
  destruct (analyze_pair (provider_of cross_up_frame) "EUR" "USD") as [snap|e] eqn:E;
    [|vm_compute in E; discriminate].
  destruct (snapshot_rsi_state_reads_rsi
              (provider_of cross_up_frame) "EUR" "USD" cross_up_frame snap
              eq_refl E) as (r & H1 & H2 & H3 & H4 & _).
  exists snap, r. repeat split; try assumption; apply H4.
Defined.

(** X5.  The tilt and the cross signals of a snapshot agree: a golden cross comes
    with the bullish tilt, a death cross with the bearish tilt, and a
    sideways tilt with no signal. *)
Theorem snapshot_tilt_agrees_with_signals
    (fetch : QuoteProvider) (base quote : string) (df : DataFrame)
    (snap : Snapshot) :
  fetch base quote = Ok df -> analyze_pair fetch base quote = Ok snap ->
  (signals snap = golden_cross -> tilt snap = "⬆️ Bullish tilt") /\
  (signals snap = death_cross -> tilt snap = "⬇️ Bearish tilt") /\
  (tilt snap = "➡️ Sideways" -> signals snap = "—") /\
  (tilt snap = "⬆️ Bullish tilt" \/ tilt snap = "⬇️ Bearish tilt" \/
   tilt snap = "➡️ Sideways").
Proof.
  intros Hf Hok.
  destruct (analyze_pair_ok_inv fetch base quote df snap Hf Hok)
    as (pre & prev & latest & s50 & s200 & p50 & p200
        & Hrows & E1 & E2 & E3 & E4 & ->).
  unfold snapshot_of; cbn [signals tilt]. unfold cross_signals.
  rewrite E1, E2, E3, E4. unfold golden_cross, death_cross.
  pose proof (fgt_Fin s50 s200) as G1. pose proof (flt_Fin s50 s200) as D1.
  destruct (fgt (Fin s50) (Fin s200)), (fle (Fin p50) (Fin p200)),
    (flt (Fin s50) (Fin s200)), (fge (Fin p50) (Fin p200)); simpl;
    intuition (try discriminate; try lra).
Qed.

Lemma snapshot_tilt_witness :
  exists snap,
    analyze_pair (provider_of cross_up_frame) "EUR" "USD" = Ok snap /\
    signals snap = golden_cross /\ tilt snap = "⬆️ Bullish tilt".
Proof.
  destruct (analyze_pair (provider_of cross_up_frame) "EUR" "USD") as [snap|e] eqn:E;
    [|vm_compute in E; discriminate].
  destruct (snapshot_tilt_agrees_with_signals
              (provider_of cross_up_frame) "EUR" "USD" cross_up_frame snap
              eq_refl E) as (H1 & _).
  assert (Hs : signals snap = golden_cross).
  { vm_compute in E. injection E as <-. reflexivity. }
  exists snap. repeat split; [exact Hs|apply H1; exact Hs].
Defined.

(** ** Fetching the quotes *)

Lemma insert_by_date_perm b : forall l, Permutation (b :: l) (insert_by_date b l).
Proof.
  induction l as [|x l IH]; simpl; [apply Permutation_refl|].
  destruct (String.leb (bar_date b) (bar_date x)); [apply Permutation_refl|].
  eapply perm_trans; [apply perm_swap|]. apply perm_skip. exact IH.
Qed.

Lemma sort_index_perm l : Permutation l (sort_index l).
Proof.
  induction l as [|b l IH]; simpl; [constructor|].
  eapply perm_trans; [apply perm_skip; exact IH|]. apply insert_by_date_perm.
Qed.

Lemma insert_by_date_sorted b : forall l,
  Sorted (fun x y => String.leb (bar_date x) (bar_date y) = true) l ->
  Sorted (fun x y => String.leb (bar_date x) (bar_date y) = true)
         (insert_by_date b l).
Proof.
  induction l as [|x l IH]; intros Hs; simpl.
  - repeat constructor.
  - destruct (String.leb (bar_date b) (bar_date x)) eqn:E.
    + constructor; [exact Hs|]. constructor. exact E.
    + inversion Hs as [|? ? Hs' Hhd]; subst.
      constructor; [apply IH; exact Hs'|].
      assert (Hxb : String.leb (bar_date x) (bar_date b) = true).
      { destruct (String.leb_total (bar_date b) (bar_date x)); congruence. }
      destruct l as [|y l]; simpl.
      * constructor. exact Hxb.
      * destruct (String.leb (bar_date b) (bar_date y)).
        -- constructor. exact Hxb.
        -- constructor. inversion Hhd; subst. assumption.
Qed.

Lemma sort_index_sorted l :
  Sorted (fun x y => String.leb (bar_date x) (bar_date y) = true) (sort_index l).
Proof.
  induction l as [|b l IH]; simpl; [constructor|].
  apply insert_by_date_sorted. exact IH.
Qed.

(** X7.  A payload without a problem key and with a non-empty series is returned
    as a frame that holds the same bars in ascending order of date, whatever
    order the provider sent them in. *)
Theorem fetched_frame_is_sorted_by_date
    (http : string -> string -> result FxPayload) (base quote : string)
    (data : FxPayload) (rows : list PriceBar) :
  http base quote = Ok data ->
  fx_note data = None -> fx_error_message data = None ->
  fx_time_series data = Some rows -> rows <> [] ->
  exists df,
    fetch_fx_daily_from http base quote = Ok df /\
    Permutation rows df /\
    length df = length rows /\
    Sorted (fun x y => String.leb (bar_date x) (bar_date y) = true) df.
Proof.
  intros Hh Hn He Hts Hne. exists (sort_index rows).
  split; [|split; [apply sort_index_perm|split; [|apply sort_index_sorted]]].
  - unfold fetch_fx_daily_from. rewrite Hh. simpl. rewrite Hn, He, Hts. simpl.
    destruct rows; [contradiction|reflexivity].
  - symmetry. apply Permutation_length. apply sort_index_perm.
Qed.

Lemma fetched_frame_witness :
  exists df,
    fetch_fx_daily_from newest_first_http "EUR" "USD" = Ok df /\
    Permutation [bar_on "2024-01-03" 3; bar_on "2024-01-02" 2;
                 bar_on "2024-01-01" 1] df /\
    length df = 3%nat /\
    Sorted (fun x y => String.leb (bar_date x) (bar_date y) = true) df.
Proof.
  eapply (fetched_frame_is_sorted_by_date newest_first_http "EUR" "USD");
    try reflexivity.
  discriminate.
Defined.

(** X8.  A payload that carries a "Note" or an "Error Message" is never read as
    data, even when it holds a series: the fetch raises a [RuntimeError]
    whose text is the note when there is a non-empty one, else the error
    message when there is a non-empty one, else "API issue"; the text is
    never empty.  Without those keys, a missing or empty series raises
    "No time series returned.", and what the HTTP call raised is passed
    on. *)
Theorem fetch_raises_on_provider_problem
    (http : string -> string -> result FxPayload) (base quote : string) :
  (forall e, http base quote = Raise e ->
     fetch_fx_daily_from http base quote = Raise e) /\
  (forall data,
     http base quote = Ok data ->
     fx_note data <> None \/ fx_error_message data <> None ->
     exists msg,
       fetch_fx_daily_from http base quote = Raise (Exn RuntimeError msg) /\
       msg <> "" /\
       (forall n, fx_note data = Some n -> n <> "" -> msg = n) /\
       (forall m, (fx_note data = None \/ fx_note data = Some "") ->
          fx_error_message data = Some m -> m <> "" -> msg = m) /\
       ((fx_note data = None \/ fx_note data = Some "") ->
        (fx_error_message data = None \/ fx_error_message data = Some "") ->
        msg = "API issue")) /\
  (forall data,
     http base quote = Ok data ->
     fx_note data = None -> fx_error_message data = None ->
     fx_time_series data = None \/ fx_time_series data = Some [] ->
     fetch_fx_daily_from http base quote
       = Raise (Exn RuntimeError "No time series returned.")).
Proof.
  split; [|split].
  - intros e He. unfold fetch_fx_daily_from. rewrite He. reflexivity.
  - intros data Hd Hkey.
    exists (str_or (fx_note data) (str_or (fx_error_message data) "API issue")).
    split; [|split; [|split; [|split]]].
    + unfold fetch_fx_daily_from. rewrite Hd. simpl.
      destruct (fx_note data), (fx_error_message data); simpl;
        try reflexivity. destruct Hkey; congruence.
    + destruct (fx_note data) as [[|c n]|], (fx_error_message data) as [[|c' m]|];
        simpl; discriminate.
    + intros n -> Hn. destruct n; [contradiction|reflexivity].
    + intros m Hn -> Hm.
      destruct Hn as [->| ->]; destruct m; simpl; try contradiction; reflexivity.
    + intros [->| ->] [->| ->]; reflexivity.
  - intros data Hd Hn He Hts. unfold fetch_fx_daily_from. rewrite Hd. simpl.
    rewrite Hn, He. simpl. destruct Hts as [-> | ->]; reflexivity.
Qed.

Lemma fetch_raises_witness :
  (exists msg,
     fetch_fx_daily_from throttled_http "EUR" "USD" = Raise (Exn RuntimeError msg) /\
     msg <> "" /\
     msg = "Thank you for using Alpha Vantage!") /\
  fetch_fx_daily_from empty_note_http "EUR" "USD"
    = Raise (Exn RuntimeError "API issue").
Proof.
  split.
  - destruct (fetch_raises_on_provider_problem throttled_http "EUR" "USD")
      as (_ & H & _).
    destruct (H _ eq_refl) as (msg & H1 & H2 & H3 & _).
    + left. discriminate.
    + exists msg. repeat split; try assumption.
      apply H3; [reflexivity|discriminate].
  - destruct (fetch_raises_on_provider_problem empty_note_http "EUR" "USD")
      as (_ & H & _).
    destruct (H _ eq_refl) as (msg & H1 & _ & _ & _ & H5).
    + left. discriminate.
    + rewrite H1, H5; [reflexivity|right; reflexivity|left; reflexivity].
Defined.

(** ** The [/trend] command *)

Lemma upper_char_idem c : upper_char (upper_char c) = upper_char c.
Proof. destruct c as [[] [] [] [] [] [] [] []]; reflexivity. Qed.

Lemma upper_lower_char c : upper_char (lower_char c) = upper_char c.
Proof. destruct c as [[] [] [] [] [] [] [] []]; reflexivity. Qed.

Lemma lower_upper_char c : lower_char (upper_char c) = lower_char c.
Proof. destruct c as [[] [] [] [] [] [] [] []]; reflexivity. Qed.

Lemma upper_idem s : upper (upper s) = upper s.
Proof.
  induction s as [|c s IH]; simpl; [reflexivity|].
  rewrite upper_char_idem, IH. reflexivity.
Qed.

Lemma upper_lower s : upper (lower s) = upper s.
Proof.
  induction s as [|c s IH]; simpl; [reflexivity|].
  rewrite upper_lower_char, IH. reflexivity.
Qed.

Lemma substring_all s : substring 0 (String.length s) s = s.
Proof. induction s as [|c s IH]; simpl; [reflexivity|]. rewrite IH. reflexivity. Qed.

Lemma substring_app_l a b : substring 0 (String.length a) (a ++ b) = a.
Proof. induction a as [|c a IH]; simpl; [destruct b|rewrite IH]; reflexivity. Qed.

Lemma substring_app_r a b :
  substring (String.length a) (String.length b) (a ++ b) = b.
Proof.
  induction a as [|c a IH]; simpl; [apply substring_all|exact IH].
Qed.

Lemma string_length_app a b :
  String.length (a ++ b) = (String.length a + String.length b)%nat.
Proof. induction a as [|c a IH]; simpl; [|rewrite IH]; reflexivity. Qed.

(** X9.  A six-letter pair code is read as its two halves: for codes written in
    ASCII, [/trend EURUSD] is answered as [/trend EUR USD] is. *)
Theorem trend_pair_code_is_its_two_halves
    (env : Env) (base quote : string) :
  ascii_only base = true -> ascii_only quote = true ->
  String.length base = 3%nat -> String.length quote = 3%nat ->
  trend_one_cmd env [(base ++ quote)%string] = trend_one_cmd env [base; quote].
Proof.
  intros _ _ Hb Hq. unfold trend_one_cmd.
  rewrite string_length_app, Hb, Hq. simpl Nat.eqb. cbv iota.
  rewrite <- Hb at 1. rewrite substring_app_l.
  rewrite <- Hb at 1. rewrite <- Hq at 1. rewrite substring_app_r.
  reflexivity.
Qed.

Lemma trend_pair_code_witness :
  trend_one_cmd sample_env ["EURUSD"] = trend_one_cmd sample_env ["EUR"; "USD"].
Proof.
  apply (trend_pair_code_is_its_two_halves sample_env "EUR" "USD");
    reflexivity.
Defined.

(** X10.  [/trend] does not look at the case of its two codes (written in ASCII),
    nor at any argument after the second. *)
Theorem trend_ignores_case_and_further_arguments
    (env : Env) (base quote : string) (rest : list string) :
  ascii_only base = true -> ascii_only quote = true ->
  trend_one_cmd env (lower base :: lower quote :: rest)
    = trend_one_cmd env [upper base; upper quote] /\
  trend_one_cmd env (base :: quote :: rest)
    = trend_one_cmd env [upper base; upper quote].
Proof.
  intros _ _. unfold trend_one_cmd.
  rewrite !upper_lower, !upper_idem. split; reflexivity.
Qed.

Lemma trend_ignores_case_witness :
  trend_one_cmd sample_env ["eur"; "usd"; "now"]
    = trend_one_cmd sample_env ["EUR"; "USD"].
Proof.
  apply (trend_ignores_case_and_further_arguments sample_env "eur" "usd" ["now"]);
    reflexivity.
Defined.

(** X11.  [/trend] always answers with exactly one message, whatever its
    arguments and whatever the provider does: a failure of the fetch or of
    the analysis is told to the user, not raised.  In particular, when the
    quotes come from the provider's HTTP interface and it answers with a
    non-empty note, the text of that note reaches the user as it is. *)
Theorem trend_tells_the_provider_note (env : Env) :
  (forall args, exists m, trend_one_cmd env args = [m]) /\
  (forall (http : string -> string -> result FxPayload)
          (base quote note : string) (rest : list string) (data : FxPayload),
     fetch_fx_daily env = fetch_fx_daily_from http ->
     http (upper base) (upper quote) = Ok data ->
     fx_note data = Some note -> note <> "" ->
     trend_one_cmd env (base :: quote :: rest)
       = [Plain ("⚠️ Error: " ++ note)%string]).
Proof.
  split.
  - intros args. unfold trend_one_cmd, trend_reply.
    destruct args as [|a [|b l]].
    + eexists; reflexivity.
    + destruct (String.length a =? 6)%nat; [|eexists; reflexivity].
      destruct (analyze_pair _ _ _); eexists; reflexivity.
    + destruct (analyze_pair _ _ _); eexists; reflexivity.
  - intros http base quote note rest data Hfetch Hh Hn Hne.
    unfold trend_one_cmd, trend_reply, analyze_pair.
    rewrite Hfetch. unfold fetch_fx_daily_from. rewrite Hh. simpl.
    rewrite Hn. simpl. destruct note; [contradiction|reflexivity].
Qed.

Lemma trend_tells_the_provider_note_witness :
  trend_one_cmd throttled_env ["eur"; "usd"]
    = [Plain "⚠️ Error: Thank you for using Alpha Vantage!"].
Proof.
  destruct (trend_tells_the_provider_note throttled_env) as (_ & H).
  apply (H throttled_http
           "eur" "usd" "Thank you for using Alpha Vantage!" []
           {| fx_note := Some "Thank you for using Alpha Vantage!";
              fx_error_message := None;
              fx_time_series := Some [bar_on "2024-01-01" 1] |});
    try reflexivity.
  discriminate.
Defined.

(** ** Headlines *)

Lemma headline_has_bullet (a : Article) :
  String.prefix "• "
    ("• " ++ match article_title a with Some t => t | None => "(no title)" end)
    = true.
Proof. destruct (article_title a) as [[|c t]|]; reflexivity. Qed.

(** X12.  [get_forex_news]: without a key (unset or empty) it returns no headline
    and does not depend on the news provider, whose failure cannot then
    matter; with a key it passes on what the provider raised, and otherwise
    returns one bulleted headline for each of the first [limit] articles,
    "(no title)" standing for a missing title. *)
Theorem get_forex_news_behaviour (env : Env) (limit : nat) :
  (key_missing (NEWSAPI_KEY env) = true -> get_forex_news env limit = Ok []) /\
  (key_missing (NEWSAPI_KEY env) = false ->
     (forall e, newsapi_articles env = Raise e ->
        get_forex_news env limit = Raise e) /\
     (forall articles, newsapi_articles env = Ok articles ->
        exists heads,
          get_forex_news env limit = Ok heads /\
          length heads = Nat.min limit (length articles) /\
          (forall h, In h heads -> String.prefix "• " h = true) /\
          (forall i a, (i < limit)%nat -> nth_error articles i = Some a ->
             nth_error heads i
               = Some ("• " ++ match article_title a with
                               | Some t => t
                               | None => "(no title)"
                               end)%string))).
Proof.
  unfold get_forex_news. split.
  - intros ->. reflexivity.
  - intros ->. split.
    + intros e ->. reflexivity.
    + intros articles ->. simpl. eexists. split; [reflexivity|].
      split; [rewrite length_map, length_firstn; reflexivity|]. split.
      * intros h Hh. apply in_map_iff in Hh. destruct Hh as (a & <- & _).
        apply headline_has_bullet.
      * intros i a Hi Ha. rewrite nth_error_map, nth_error_firstn.
        destruct (Nat.ltb_spec i limit); [|lia]. rewrite Ha. reflexivity.
Qed.

Lemma get_forex_news_witness :
  get_forex_news sample_env 6 = Ok [] /\
  exists heads,
    get_forex_news news_env 6 = Ok heads /\
    length heads = 6%nat /\
    nth_error heads 1 = Some "• (no title)".
Proof.
  split.
  - apply (get_forex_news_behaviour sample_env 6). reflexivity.
  - destruct (get_forex_news_behaviour news_env 6) as (_ & H).
    destruct (H eq_refl) as (_ & Hok).
    destruct (Hok eight_articles eq_refl) as (heads & H1 & H2 & _ & H4).
    exists heads. split; [exact H1|]. split; [exact H2|].
    apply (H4 1%nat {| article_title := None |}); [lia|reflexivity].
Defined.

(** X13.  [/forexnews] always answers with exactly one message.  It is the list of
    headlines only when there is at least one, and then it lists at most
    six; without a key it is the "no news" notice, and when the provider
    fails it is the "couldn't fetch" notice: the failure is not raised. *)
Theorem forex_news_cmd_answers_once (env : Env) :
  exists m,
    forex_news_cmd env = [m] /\
    (key_missing (NEWSAPI_KEY env) = true ->
       m = Plain "⚠️ No forex news now or NEWSAPI_KEY missing.") /\
    (forall e, get_forex_news env 6 = Raise e ->
       m = Plain "⚠️ Couldn’t fetch Forex news.") /\
    (forall text, m = Markdown text ->
       exists heads,
         get_forex_news env 6 = Ok heads /\ heads <> [] /\
         (length heads <= 6)%nat /\
         text = ("📰 *Latest Forex Headlines:*" ++ nl ++ nl ++ join nl heads)%string).
Proof.
  unfold forex_news_cmd.
  destruct (get_forex_news env 6) as [[|h heads]|e] eqn:E; eexists;
    (split; [reflexivity|]); (split; [|split]).
  - reflexivity.
  - discriminate.
  - discriminate.
  - intros Hk. pose proof (get_forex_news_length env 6 _ E) as Hl.
    unfold get_forex_news in E. rewrite Hk in E. discriminate.
  - discriminate.
  - intros text [= <-]. exists (h :: heads).
    split; [reflexivity|]. split; [discriminate|].
    split; [exact (get_forex_news_length env 6 _ E)|reflexivity].
  - intros Hk. unfold get_forex_news in E. rewrite Hk in E. discriminate.
  - reflexivity.
  - discriminate.
Qed.

Lemma forex_news_cmd_witness :
  exists m,
    forex_news_cmd sample_env = [m] /\
    m = Plain "⚠️ No forex news now or NEWSAPI_KEY missing.".
Proof.
  destruct (forex_news_cmd_answers_once sample_env) as (m & H1 & H2 & _).
  exists m. split; [exact H1|]. apply H2. reflexivity.
Defined.

(** ** Welcome *)

(** X14.  [welcome] greets exactly on a move from outside the chat (left, kicked)
    to inside it (member, administrator, creator): it sends nothing without
    a membership change, nothing when the status stays the same, and
    nothing when the new status is left, kicked or restricted; when it
    greets it sends one message, to the chat of the event, that ends with
    the house rules and names "Trader" when the first name is empty. *)
Theorem welcome_greets_on_join_only (chat_member : option ChatMemberUpdated) :
  (chat_member = None -> welcome chat_member = []) /\
  (forall m, chat_member = Some m ->
     (old_status m = new_status m -> welcome chat_member = []) /\
     (In (new_status m) ["left"; "kicked"; "restricted"] ->
        welcome chat_member = []) /\
     (In (old_status m) ["left"; "kicked"] ->
      In (new_status m) ["member"; "administrator"; "creator"] ->
      welcome chat_member
        = [(member_chat_id m,
            Markdown ("👋 Welcome, *"
                      ++ (if (String.length (first_name m) =? 0)%nat
                          then "Trader" else first_name m)
                      ++ "*!" ++ nl ++ nl ++ HOUSE_RULES)%string)]) /\
     (welcome chat_member <> [] ->
        In (old_status m) ["left"; "kicked"] /\
        In (new_status m) ["member"; "administrator"; "creator"])).
Proof.
  split; [intros ->; reflexivity|].
  intros m ->. unfold welcome, _is_join_event, in_tuple. simpl.
  repeat split.
  - intros <-.
    destruct (String.eqb_spec (old_status m) "left") as [E|_];
      [rewrite E; reflexivity|].
    destruct (String.eqb_spec (old_status m) "kicked") as [E|_];
      [rewrite E; reflexivity|]. reflexivity.
  - intros [<-|[<-|[<-|[]]]]; simpl; rewrite andb_false_r; reflexivity.
  - intros Ho Hn.
    assert (Eo : (old_status m =? "left") || ((old_status m =? "kicked") || false)
                 = true).
    { destruct Ho as [<-|[<-|[]]]; reflexivity. }
    assert (En : (new_status m =? "member")
                 || ((new_status m =? "administrator")
                     || ((new_status m =? "creator") || false)) = true).
    { destruct Hn as [<-|[<-|[<-|[]]]]; reflexivity. }
    rewrite Eo, En. reflexivity.
  - destruct (String.eqb_spec (old_status m) "left") as [E|_]; [auto|].
    destruct (String.eqb_spec (old_status m) "kicked") as [E|_]; [auto|].
    simpl in H. contradiction.
  - destruct (String.eqb_spec (new_status m) "member") as [E|_]; [auto|].
    destruct (String.eqb_spec (new_status m) "administrator") as [E|_]; [auto|].
    destruct (String.eqb_spec (new_status m) "creator") as [E|_]; [auto|].
    simpl in H. rewrite andb_false_r in H. simpl in H. contradiction.
Qed.

Lemma welcome_witness :
  welcome (Some {| member_chat_id := 7; old_status := "left";
                   new_status := "member"; first_name := "" |})
    = [(7%Z, Markdown ("👋 Welcome, *Trader*!" ++ nl ++ nl ++ HOUSE_RULES)%string)].
Proof.
  destruct (welcome_greets_on_join_only
              (Some {| member_chat_id := 7; old_status := "left";
                       new_status := "member"; first_name := "" |}))
    as (_ & H).
  destruct (H _ eq_refl) as (_ & _ & Hjoin & _).
  apply Hjoin; simpl; auto.
Defined.

(** ** Free text *)

Lemma lower_app a b : lower (a ++ b) = (lower a ++ lower b)%string.
Proof. induction a as [|c a IH]; simpl; [|rewrite IH]; reflexivity. Qed.

Lemma prefix_app w s : String.prefix w (w ++ s) = true.
Proof.
  induction w as [|c w IH]; simpl; [destruct s; reflexivity|].
  destruct (ascii_dec c c); [exact IH|contradiction].
Qed.

Lemma substr_in_eq w s :
  substr_in w s
    = String.prefix w s
      || match s with EmptyString => false | String _ r => substr_in w r end.
Proof. destruct s; reflexivity. Qed.

Lemma substr_in_app w p s : substr_in w (p ++ w ++ s) = true.
Proof.
  induction p as [|c p IH].
  - simpl. rewrite substr_in_eq, prefix_app. reflexivity.
  - change ((String c p ++ w ++ s)%string) with (String c (p ++ w ++ s)).
    rewrite substr_in_eq, IH. apply orb_true_r.
Qed.

Lemma lower_length s : String.length (lower s) = String.length s.
Proof. induction s as [|c s IH]; simpl; [|rewrite IH]; reflexivity. Qed.

(** X15.  [echo] looks for its words anywhere in the text and in any case, and
    "hello" wins over "help": a text with "hello" in it gets the greeting
    whatever else it holds, a text with "help" and no "hello" gets the
    hint.  A text that is not empty gets exactly one of the three answers;
    an update without text, or with an empty one, gets none. *)
Theorem echo_finds_hello_then_help :
  (forall p w s, lower w = "hello" ->
     echo (Some (p ++ w ++ s)%string) = [Plain hello_reply]) /\
  (forall p w s, lower w = "help" ->
     substr_in "hello" (lower (p ++ w ++ s)) = false ->
     echo (Some (p ++ w ++ s)%string) = [Plain help_reply]) /\
  (forall t, t <> "" ->
     echo (Some t) = [Plain hello_reply] \/
     echo (Some t) = [Plain help_reply] \/
     echo (Some t) = [Plain other_reply]) /\
  echo None = [] /\ echo (Some "") = [].
Proof.
  assert (Hlen : forall p w s n, String.length (lower w) = S n ->
            (String.length (p ++ w ++ s) =? 0)%nat = false).
  { intros p w s n H. rewrite lower_length in H.
    rewrite !string_length_app, H. apply Nat.eqb_neq. lia. }
  split; [|split; [|split; [|split]]].
  - intros p w s Hw. unfold echo.
    rewrite (Hlen p w s 4%nat) by (rewrite Hw; reflexivity).
    rewrite !lower_app, Hw, substr_in_app. reflexivity.
  - intros p w s Hw Hno. unfold echo.
    rewrite (Hlen p w s 3%nat) by (rewrite Hw; reflexivity).
    rewrite Hno. rewrite !lower_app, Hw, substr_in_app. reflexivity.
  - intros t Ht. unfold echo. destruct t as [|c t]; [contradiction|].
    cbn [String.length Nat.eqb].
    destruct (substr_in "hello" (lower (String c t))); [auto|].
    destruct (substr_in "help" (lower (String c t))); auto.
  - reflexivity.
  - reflexivity.
Qed.

Lemma echo_witness :
  echo (Some "Need HELP? say HeLLo first") = [Plain hello_reply] /\
  echo (Some "please Help me") = [Plain help_reply].
Proof.
  destruct echo_finds_hello_then_help as (Hhello & Hhelp & _).
  split.
  - apply (Hhello "Need HELP? say " "HeLLo" " first"). reflexivity.
  - apply (Hhelp "please " "Help" " me"); reflexivity.
Defined.

(** ** More on the job queue *)

Lemma parse_time_valid arg hh mm :
  parse_time arg = Some (hh, mm) -> valid_time hh mm.
Proof.
  unfold parse_time, valid_time.
  destruct (map py_int (split ":" arg)) as [|[h|] [|[m|] [|x l]]];
    try discriminate.
  destruct ((0 <=? h) && (h <? 24) && (0 <=? m) && (m <? 60))%Z eqn:E;
    [|discriminate].
  intros [= <- <-]. rewrite !andb_true_iff in E. lia.
Qed.

Lemma all_shown_times_parse :
  forallb (fun h => forallb (shown_time_parses h) (seq 0 60)) (seq 0 24) = true.
Proof. vm_compute. reflexivity. Qed.

Lemma shown_time_round_trip hh mm :
  valid_time hh mm -> parse_time (shown_time hh mm) = Some (hh, mm).
Proof.
  intros (Hh & Hm).
  pose proof all_shown_times_parse as H. rewrite forallb_forall in H.
  specialize (H (Z.to_nat hh)). rewrite forallb_forall in H.
  specialize (H ltac:(apply in_seq; lia) (Z.to_nat mm) ltac:(apply in_seq; lia)).
  unfold shown_time_parses in H. rewrite !Z2Nat.id in H by lia.
  destruct (parse_time (shown_time hh mm)) as [[h m]|]; [|discriminate].
  apply andb_true_iff in H. destruct H as (E1 & E2).
  apply Z.eqb_eq in E1, E2. congruence.
Qed.

(** X16.  The confirmation of a schedule shows the time as HH:MM, and that text is
    itself a valid argument for the same time: sending it back schedules
    the digest at the hour and minute that were just confirmed. *)
Theorem confirmed_time_schedules_the_same_time
    (env : Env) (arg : string) (chat hh mm : Z) (q : JobQueue) :
  queue_wf q -> parse_time arg = Some (hh, mm) ->
  snd (schedule_digest_cmd env [arg] chat q)
    = [Plain ("✅ Daily digest set for " ++ shown_time hh mm
              ++ " (" ++ TZ_NAME env ++ ").")%string] /\
  parse_time (shown_time hh mm) = Some (hh, mm) /\
  forall q', queue_wf q' ->
    jobs_of_chat chat (fst (schedule_digest_cmd env [shown_time hh mm] chat q'))
      = [new_job hh mm chat q'].
Proof.
  intros Hwf E. pose proof (parse_time_valid arg hh mm E) as Hv.
  pose proof (shown_time_round_trip hh mm Hv) as Hrt.
  split; [|split; [exact Hrt|]].
  - rewrite (schedule_accepts env arg chat q hh mm Hwf E). cbn [snd].
    unfold set_reply, shown_time. rewrite !string_app_assoc. reflexivity.
  - intros q' Hwf'.
    rewrite (schedule_accepts env _ chat q' hh mm Hwf' Hrt). cbn [fst].
    rewrite jobs_of_chat_added, Z.eqb_refl. reflexivity.
Qed.

Lemma confirmed_time_witness :
  snd (schedule_digest_cmd sample_env ["8:5"] 1 empty_queue)
    = [Plain "✅ Daily digest set for 08:05 (Africa/Lagos)."] /\
  parse_time "08:05" = Some (8%Z, 5%Z).
Proof.
  destruct (confirmed_time_schedules_the_same_time
              sample_env "8:5" 1 8 5 empty_queue) as (H1 & H2 & _).
  - constructor; simpl; try contradiction. constructor.
  - reflexivity.
  - split; [exact H1|exact H2].
Defined.

Lemma other_chats_idem chat l :
  other_chats chat (other_chats chat l) = other_chats chat l.
Proof.
  unfold other_chats. rewrite filter_twice. apply filter_ext. intros k.
  destruct (job_chat_id k =? chat)%Z; reflexivity.
Qed.

Lemma cancel_reply chat q :
  snd (cancel_digest_cmd chat q)
    = match get_jobs_by_name (digest_name chat) q with
      | [] => [Plain "No digest job set."]
      | _ => [Plain "🛑 Daily digest canceled."]
      end.
Proof.
  unfold cancel_digest_cmd.
  destruct (get_jobs_by_name (digest_name chat) q); reflexivity.
Qed.

(** X17.  Cancelling right after a schedule removes the job just installed, and
    leaves the jobs that a cancel without the schedule would have left;
    a second cancel finds nothing, says so and changes nothing. *)
Theorem cancel_undoes_schedule
    (env : Env) (arg : string) (chat hh mm : Z) (q : JobQueue) :
  queue_wf q -> parse_time arg = Some (hh, mm) ->
  let q1 := fst (schedule_digest_cmd env [arg] chat q) in
  let q2 := fst (cancel_digest_cmd chat q1) in
  snd (cancel_digest_cmd chat q1) = [Plain "🛑 Daily digest canceled."] /\
  jobs q2 = jobs (fst (cancel_digest_cmd chat q)) /\
  jobs_of_chat chat q2 = [] /\
  cancel_digest_cmd chat q2 = (q2, [Plain "No digest job set."]).
Proof.
  intros Hwf E q1 q2.
  assert (Hwf1 : queue_wf q1) by (apply schedule_keeps_wf; exact Hwf).
  assert (Hwf2 : queue_wf q2) by (apply cancel_keeps_wf; exact Hwf1).
  assert (Hq1 : q1 = {| jobs := other_chats chat (jobs q) ++ [new_job hh mm chat q];
                        next_id := S (next_id q) |}).
  { unfold q1. rewrite (schedule_accepts env arg chat q hh mm Hwf E). reflexivity. }
  assert (Hq2 : jobs q2 = other_chats chat (jobs q)).
  { unfold q2. rewrite (cancel_outcome chat q1 Hwf1). cbn [jobs].
    rewrite Hq1. cbn [jobs]. unfold other_chats at 1.
    rewrite filter_app. fold (other_chats chat (other_chats chat (jobs q))).
    rewrite other_chats_idem. simpl. rewrite Z.eqb_refl. simpl.
    apply app_nil_r. }
  assert (Hnone : jobs_of_chat chat q2 = []).
  { unfold jobs_of_chat. rewrite Hq2, chat_of_other_chats, Z.eqb_refl.
    reflexivity. }
  split; [|split; [|split]].
  - rewrite cancel_reply, (get_jobs_by_name_chat q1 chat Hwf1), Hq1,
      jobs_of_chat_added, Z.eqb_refl. reflexivity.
  - rewrite Hq2, (cancel_outcome chat q Hwf). reflexivity.
  - exact Hnone.
  - unfold cancel_digest_cmd.
    rewrite (get_jobs_by_name_chat q2 chat Hwf2), Hnone. reflexivity.
Qed.

Lemma cancel_undoes_schedule_witness :
  let q1 := fst (schedule_digest_cmd sample_env ["08:30"] 1 empty_queue) in
  let q2 := fst (cancel_digest_cmd 1 q1) in
  snd (cancel_digest_cmd 1 q1) = [Plain "🛑 Daily digest canceled."] /\
  jobs q2 = jobs (fst (cancel_digest_cmd 1 empty_queue)) /\
  jobs_of_chat 1 q2 = [] /\
  cancel_digest_cmd 1 q2 = (q2, [Plain "No digest job set."]).
Proof.
  apply (cancel_undoes_schedule sample_env "08:30" 1 8 30 empty_queue).
  - constructor; simpl; try contradiction. constructor.
  - reflexivity.
Defined.

Lemma schedule_keeps_times env args chat q :
  queue_wf q -> times_valid q ->
  times_valid (fst (schedule_digest_cmd env args chat q)).
Proof.
  intros Hwf Ht. destruct args as [|arg [|arg' args]]; try exact Ht.
  destruct (parse_time arg) as [[hh mm]|] eqn:E.
  - rewrite (schedule_accepts env arg chat q hh mm Hwf E). cbn [fst].
    intros j Hj. cbn [jobs] in Hj. apply in_app_or in Hj.
    destruct Hj as [Hj|[<-|[]]].
    + apply Ht. unfold other_chats in Hj. apply filter_In in Hj. tauto.
    + exact (parse_time_valid arg hh mm E).
  - unfold schedule_digest_cmd. rewrite E.
    destruct (contains ":" arg); exact Ht.
Qed.

Lemma cancel_keeps_times chat q :
  queue_wf q -> times_valid q -> times_valid (fst (cancel_digest_cmd chat q)).
Proof.
  intros Hwf Ht. rewrite (cancel_outcome chat q Hwf).
  intros j Hj. cbn [jobs] in Hj. unfold other_chats in Hj.
  apply filter_In in Hj. apply Ht. tauto.
Qed.

(** X18.  Whatever sequence of [schedule_digest] and [cancel_digest] commands has
    been run, with whatever arguments, every job in the queue is named
    after its chat, fires at a valid time of day (hour 0..23, minute
    0..59), and has an identity of its own, below the next one to be
    given. *)
Theorem reachable_queue_is_sound (env : Env) (q : JobQueue) :
  reachable env q ->
  (forall j, In j (jobs q) ->
     job_name j = digest_name (job_chat_id j) /\
     valid_time (job_hour j) (job_minute j) /\
     (job_id j < next_id q)%nat) /\
  NoDup (map job_id (jobs q)) /\
  NoDup (map job_name (jobs q)).
Proof.
  intros Hr.
  assert (Hwf : queue_wf q) by (apply (reachable_invariant env q Hr)).
  assert (Hone : one_digest_per_chat q) by (apply (reachable_invariant env q Hr)).
  assert (Ht : times_valid q).
  { induction Hr as [|q args chat Hr IH|q chat Hr IH].
    - intros j [].
    - apply schedule_keeps_times; [apply (reachable_invariant env q Hr)|].
      apply IH; apply (reachable_invariant env q Hr).
    - apply cancel_keeps_times; [apply (reachable_invariant env q Hr)|].
      apply IH; apply (reachable_invariant env q Hr). }
  split; [|split].
  - intros j Hj. split; [apply (wf_names q Hwf j Hj)|].
    split; [apply Ht; exact Hj|apply (wf_fresh q Hwf j Hj)].
  - apply (wf_ids q Hwf).
  - clear Ht Hr. destruct q as [js n]. simpl in *.
    assert (Hn : forall j, In j js -> job_name j = digest_name (job_chat_id j))
      by (apply (wf_names _ Hwf)).
    unfold one_digest_per_chat, jobs_of_chat in Hone. simpl in Hone.
    clear Hwf. induction js as [|j js IH]; simpl; constructor.
    + intros Hin. apply in_map_iff in Hin. destruct Hin as (k & Hk & Hin).
      rewrite (Hn j (or_introl eq_refl)), (Hn k (or_intror Hin)) in Hk.
      apply digest_name_inj in Hk.
      specialize (Hone (job_chat_id j)). simpl in Hone.
      rewrite Z.eqb_refl in Hone. simpl in Hone.
      assert (Hk' : In k (filter (fun x => (job_chat_id x =? job_chat_id j)%Z) js)).
      { apply filter_In. split; [exact Hin|]. apply Z.eqb_eq. exact Hk. }
      destruct (filter _ js); [contradiction|simpl in Hone; lia].
    + apply IH.
      * intros c. specialize (Hone c). simpl in Hone.
        destruct (job_chat_id j =? c)%Z; simpl in Hone; lia.
      * intros k Hk. apply Hn. right. exact Hk.
Qed.

Lemma reachable_queue_witness :
  forallb (fun j => (0 <=? job_hour j) && (job_hour j <? 24) &&
                    (0 <=? job_minute j) && (job_minute j <? 60))%Z
          (jobs morning_queue) = true /\
  NoDup (map job_name (jobs morning_queue)).
Proof.
  destruct (reachable_queue_is_sound sample_env morning_queue)
    as (H & _ & Hnames).
  - unfold morning_queue. apply reach_schedule. apply reach_empty.
  - split; [|exact Hnames]. reflexivity.
Defined.

(** ** Timer ticks *)

Lemma digest_job_sends_at_most_two env chat :
  (1 <= length (sent (digest_job env chat)) <= 2)%nat.
Proof.
  unfold digest_job. destruct (get_forex_news env 5).
  - destruct (digest_loop env (firstn 4 MAJOR_PAIRS) [] []). simpl. lia.
  - simpl. lia.
Qed.

Lemma digest_job_other_chat env chat c :
  c <> chat ->
  filter (fun cm => (fst cm =? c)%Z) (sent (digest_job env chat)) = [].
Proof.
  intros Hc. apply filter_none. intros [c' m] Hin.
  apply digest_job_chat in Hin. subst. simpl. apply Z.eqb_neq. congruence.
Qed.

Lemma sent_to_cons chat run runs :
  sent_to chat (run :: runs)
    = filter (fun cm => (fst cm =? chat)%Z) (sent run) ++ sent_to chat runs.
Proof. unfold sent_to. simpl. apply filter_app. Qed.

Lemma sent_to_per_job env chat : forall l : list Job,
  (length (sent_to chat (map (fun j => digest_job env (job_chat_id j)) l))
   <= 2 * length (filter (fun j => (job_chat_id j =? chat)%Z) l))%nat.
Proof.
  induction l as [|j l IH]; [simpl; lia|].
  cbn [map]. rewrite sent_to_cons, length_app. cbn [filter].
  destruct (Z.eqb_spec (job_chat_id j) chat) as [E|Hne].
  - pose proof (filter_length_le (fun cm : Z * Message => (fst cm =? chat)%Z)
                  (sent (digest_job env (job_chat_id j)))) as H1.
    pose proof (digest_job_sends_at_most_two env (job_chat_id j)) as H2.
    cbn [length]. lia.
  - rewrite digest_job_other_chat by congruence. simpl. exact IH.
Qed.

Lemma filter_filter_length_le {A} (f g : A -> bool) l :
  (length (filter f (filter g l)) <= length (filter f l))%nat.
Proof.
  induction l as [|a l IH]; simpl; [lia|].
  destruct (g a); simpl; destruct (f a); simpl; lia.
Qed.

(** X19.  On every queue the commands can reach, a timer tick sends a chat at most
    the two messages of one digest, and sends something only to chats that
    have a job due at that time. *)
Theorem tick_sends_one_digest_per_chat
    (env0 env : Env) (q : JobQueue) (hh mm chat : Z) :
  reachable env0 q ->
  (length (sent_to chat (tick env hh mm q)) <= 2)%nat /\
  (sent_to chat (tick env hh mm q) <> [] ->
     exists j, In j (due hh mm q) /\ job_chat_id j = chat).
Proof.
  intros Hr. split.
  - pose proof (proj2 (reachable_invariant env0 q Hr) chat) as Hone.
    unfold tick. etransitivity; [apply sent_to_per_job|].
    unfold due. pose proof (filter_filter_length_le
      (fun j => (job_chat_id j =? chat)%Z)
      (fun j => (job_hour j =? hh)%Z && (job_minute j =? mm)%Z) (jobs q)) as H.
    unfold jobs_of_chat in Hone. lia.
  - intros Hne. unfold tick in Hne.
    destruct (filter (fun j => (job_chat_id j =? chat)%Z) (due hh mm q))
      as [|j l] eqn:E.
    + exfalso. apply Hne.
      pose proof (sent_to_per_job env chat (due hh mm q)) as H.
      rewrite E in H. simpl in H.
      destruct (sent_to chat _); [reflexivity|simpl in H; lia].
    + exists j. assert (Hin : In j (j :: l)) by (left; reflexivity).
      rewrite <- E in Hin. apply filter_In in Hin.
      destruct Hin as (Hin & Hc). split; [exact Hin|]. apply Z.eqb_eq. exact Hc.
Qed.

Lemma tick_witness :
  (length (sent_to 1 (tick sample_env 8 30 morning_queue)) <= 2)%nat.
Proof.
  apply (tick_sends_one_digest_per_chat sample_env sample_env morning_queue 8 30 1).
  unfold morning_queue. apply reach_schedule. apply reach_empty.
Defined.

(** ** More on the batches *)

Lemma failures_app env l1 l2 :
  failures env (l1 ++ l2) = failures env l1 ++ failures env l2.
Proof. unfold failures. apply flat_map_app. Qed.

Lemma successes_app env l1 l2 :
  successes env (l1 ++ l2) = successes env l1 ++ successes env l2.
Proof. unfold successes. apply flat_map_app. Qed.

(** X20.  [/trends] never stays silent and sends at most two messages.  When no
    pair fails it sends the one trend summary, of seven snapshots; when
    every pair fails it sends the one failure message, and that message
    names the first five majors only: the failures of USD/CAD and NZD/USD
    are cut off. *)
Theorem trends_cmd_answers (env : Env) :
  (1 <= length (trends_cmd env) <= 2)%nat /\
  (failures env MAJOR_PAIRS = [] ->
     trends_cmd env = [MarkdownTrends (successes env MAJOR_PAIRS)] /\
     length (successes env MAJOR_PAIRS) = 7%nat) /\
  (successes env MAJOR_PAIRS = [] ->
     trends_cmd env
       = [failure_summary
            (map trends_error (failures env (firstn 5 MAJOR_PAIRS)))]).
Proof.
  pose proof (every_pair_is_accounted_for env MAJOR_PAIRS) as Hall.
  change (length MAJOR_PAIRS) with 7%nat in Hall.
  rewrite trends_cmd_reply. unfold trends_reply.
  assert (Hsplit : MAJOR_PAIRS = firstn 5 MAJOR_PAIRS ++ skipn 5 MAJOR_PAIRS)
    by reflexivity.
  pose proof (every_pair_is_accounted_for env (firstn 5 MAJOR_PAIRS)) as H5.
  change (length (firstn 5 MAJOR_PAIRS)) with 5%nat in H5.
  assert (Hs5 : successes env MAJOR_PAIRS = [] ->
                successes env (firstn 5 MAJOR_PAIRS) = []).
  { intros E. rewrite Hsplit, successes_app in E. apply app_eq_nil in E. tauto. }
  assert (Hf : length (failures env (firstn 5 MAJOR_PAIRS)) = 5%nat ->
               firstn 5 (map trends_error (failures env MAJOR_PAIRS))
               = map trends_error (failures env (firstn 5 MAJOR_PAIRS))).
  { intros Hl. rewrite Hsplit at 1. rewrite failures_app, map_app.
    rewrite <- Hl at 1. rewrite <- (length_map trends_error).
    rewrite firstn_app, firstn_all, Nat.sub_diag. cbn [firstn]. apply app_nil_r. }
  remember (successes env MAJOR_PAIRS) as S eqn:ES.
  remember (failures env MAJOR_PAIRS) as F eqn:EF.
  remember (successes env (firstn 5 MAJOR_PAIRS)) as S5 eqn:ES5.
  remember (failures env (firstn 5 MAJOR_PAIRS)) as F5 eqn:EF5.
  split; [|split].
  - destruct S, F; simpl in *; lia.
  - intros E. rewrite E in *. destruct S; simpl in *; [lia|].
    split; [reflexivity|lia].
  - intros E. rewrite E in *. rewrite (Hs5 eq_refl) in H5. simpl in H5, Hall.
    destruct F as [|x l]; [simpl in Hall; lia|].
    unfold failure_summary.
    rewrite (firstn_all2 (n := 5) (map trends_error F5))
      by (rewrite length_map; lia).
    rewrite <- (Hf H5). reflexivity.
Qed.

Lemma trends_cmd_witness :
  trends_cmd sample_env
    = [failure_summary
         (map trends_error (failures sample_env (firstn 5 MAJOR_PAIRS)))].
Proof.
  apply (trends_cmd_answers sample_env). reflexivity.
Defined.

(** X21.  A digest needs the headlines first: when the news fetch raises, the
    chat gets the one "digest failed" notice and no quote is asked for, so
    that the run is the same whatever the quote provider would answer.
    When the fetch returns, without a key in particular, the chat gets two
    messages, the first being the headlines or "No headlines.". *)
Theorem digest_needs_the_news_first (env : Env) (chat : Z) :
  (forall e, get_forex_news env 5 = Raise e ->
     sent (digest_job env chat) = [(chat, Plain "⚠️ Daily digest failed.")] /\
     forall env',
       NEWSAPI_KEY env' = NEWSAPI_KEY env ->
       newsapi_articles env' = newsapi_articles env ->
       digest_job env' chat = digest_job env chat) /\
  (forall heads, get_forex_news env 5 = Ok heads ->
     exists news trends,
       sent (digest_job env chat) = [(chat, Markdown news); (chat, trends)] /\
       (heads = [] ->
          news = ("📰 *Daily Forex Headlines:*" ++ nl ++ nl ++ "No headlines.")%string)) /\
  (key_missing (NEWSAPI_KEY env) = true -> get_forex_news env 5 = Ok []).
Proof.
  split; [|split].
  - intros e E. split.
    + unfold digest_job. rewrite E. reflexivity.
    + intros env' Hk Hn.
      assert (E' : get_forex_news env' 5 = Raise e).
      { unfold get_forex_news in *. rewrite Hk, Hn. exact E. }
      unfold digest_job. rewrite E, E'. reflexivity.
  - intros heads E. rewrite (digest_job_run env chat heads E). cbn [sent].
    do 2 eexists. split; [reflexivity|]. intros ->. reflexivity.
  - intros Hk. unfold get_forex_news. rewrite Hk. reflexivity.
Qed.

Lemma digest_needs_the_news_witness :
  sent (digest_job throttled_env 9) = [(9%Z, Plain "⚠️ Daily digest failed.")] /\
  digest_job news_fails_quotes_ok_env 9 = digest_job throttled_env 9.
Proof.
  destruct (digest_needs_the_news_first throttled_env 9) as (H & _).
  destruct (H (Exn HTTPError "401 Client Error") eq_refl) as (H1 & H2).
  split; [exact H1|]. apply H2; reflexivity.
Defined.
